(** * proto2diagram: schema resolver, diagram emitter and PlantUML encoder

    A shallow embedding of
      - src/protoParser.js            (class ProtoParser),
      - src/plantUMLGenerator.js      (class PlantUMLGenerator),
      - src/imageEncoder/plantumlEncoder.ts (function encode),
      - src/plantumlEncoder.js        (compressAndEncode with the hex fallback),
      - src/imageGenerator/imageGenerator.ts (generateImageUrl),
      - src/index.js                  (class Proto2Diagram),
      - src/config.js                 (CONFIG),
    followed by the properties of the specification that were checked
    against them.

    Conventions.
      - Identifiers, diagram lines and the diagram text are [string]s; a
        text stands for the byte sequence of its UTF-8 encoding.
      - The strings handled by the encoder are JavaScript strings of UTF-16
        code units, [list Z].
      - JavaScript objects used as dictionaries are association lists in the
        order [Object.entries] enumerates them.
      - A thrown [Error] is the left injection of a sum, carrying the
        message. *)

From Stdlib Require Import ZArith Lia List Bool Ascii String.
From stdpp Require Import base option list strings gmap.

Local Open Scope Z_scope.

(* ===================================================================== *)
(** ** JavaScript numbers as used by the encoder *)
(* ===================================================================== *)

Module JS.

(** A string of UTF-16 code units. *)
Definition jsstring := list Z.

Definition code (a : ascii) : Z := Z.of_N (N_of_ascii a).

(** The code units of an ASCII literal. *)
Definition lit (s : string) : jsstring := map code (list_ascii_of_string s).

(** ToInt32: the conversion every bitwise operator applies to its
    operands. *)
Definition int32 (z : Z) : Z := (z + 2 ^ 31) mod 2 ^ 32 - 2 ^ 31.

(** [a >> n] *)
Definition shr (a n : Z) : Z := Z.shiftr (int32 a) (n mod 32).
(** [a << n] *)
Definition shl (a n : Z) : Z := int32 (Z.shiftl (int32 a) (n mod 32)).
(** [a & b] *)
Definition and (a b : Z) : Z := Z.land (int32 a) (int32 b).
(** [a | b] *)
Definition or (a b : Z) : Z := Z.lor (int32 a) (int32 b).

(** [String.fromCharCode(n)]: ToUint16 of the argument. *)
Definition fromCharCode (n : Z) : Z := n mod 2 ^ 16.

(** [data.charCodeAt(i)].  Out of range the method yields NaN, which the
    bitwise operators of the caller convert to 0. *)
Definition charCodeAt (data : jsstring) (i : nat) : Z := nth i data 0.

(** The double-quote character, as a one-character string. *)
Definition dquote : string := String (ascii_of_nat 34) EmptyString.

(** A thrown exception, by its string conversion. *)
Definition exn := string.

Definition result (A : Type) : Type := (exn + A)%type.

End JS.

(* ===================================================================== *)
(** ** src/imageEncoder/plantumlEncoder.ts *)
(* ===================================================================== *)

Module PlantumlEncoder.
Import JS.

(** The variables [r], [i], [c1] .. [c4] declared in the body of
    [encode] and shared by the three inner functions. *)
Record vars := Vars {
  r : jsstring;
  i : nat;
  c1 : Z; c2 : Z; c3 : Z; c4 : Z
}.

Definition set_r (v : jsstring) (s : vars) : vars :=
  Vars v (i s) (c1 s) (c2 s) (c3 s) (c4 s).
Definition set_i (v : nat) (s : vars) : vars :=
  Vars (r s) v (c1 s) (c2 s) (c3 s) (c4 s).
Definition set_c (v1 v2 v3 v4 : Z) (s : vars) : vars :=
  Vars (r s) (i s) v1 v2 v3 v4.

Definition init : vars := Vars [] 0%nat 0 0 0 0.

Definition encode6bit (b : Z) : jsstring :=
  if b <? 10 then [fromCharCode (48 + b)] else
  let b := b - 10 in
  if b <? 26 then [fromCharCode (65 + b)] else
  let b := b - 26 in
  if b <? 26 then [fromCharCode (97 + b)] else
  let b := b - 26 in
  if b =? 0 then lit "-" else
  if b =? 1 then lit "_" else
  lit "?".

(** [append3bytes] overwrites the shared [r] and returns it. *)
Definition append3bytes (b1 b2 b3 : Z) (s : vars) : jsstring * vars :=
  let s := set_c (shr b1 2)
                 (or (shl (and b1 3) 4) (shr b2 4))
                 (or (shl (and b2 15) 2) (shr b3 6))
                 (and b3 63) s in
  let s := set_r [] s in
  let s := set_r (r s ++ encode6bit (and (c1 s) 63)) s in
  let s := set_r (r s ++ encode6bit (and (c2 s) 63)) s in
  let s := set_r (r s ++ encode6bit (and (c3 s) 63)) s in
  let s := set_r (r s ++ encode6bit (and (c4 s) 63)) s in
  (r s, s).

(** One round of [for (...; i < data.length; i += 3)].  In
    [r += append3bytes(...)] the old value of [r] is read before the
    call, so the call's own assignment to [r] is overwritten by the
    concatenation. *)
Definition encode64_body (data : jsstring) (s : vars) : vars :=
  let len := length data in
  let lval := r s in
  let '(rval, s) :=
    if (i s + 2 =? len)%nat then
      append3bytes (charCodeAt data (i s)) (charCodeAt data (i s + 1)) 0 s
    else if (i s + 1 =? len)%nat then
      append3bytes (charCodeAt data (i s)) 0 0 s
    else
      append3bytes (charCodeAt data (i s)) (charCodeAt data (i s + 1))
                   (charCodeAt data (i s + 2)) s in
  let s := set_r (lval ++ rval) s in
  set_i (i s + 3) s.

Fixpoint encode64_loop (fuel : nat) (data : jsstring) (s : vars) : vars :=
  match fuel with
  | O => s
  | S fuel =>
      if (i s <? length data)%nat
      then encode64_loop fuel data (encode64_body data s)
      else s
  end.

(** The loop runs at most once per input unit. *)
Definition encode64 (data : jsstring) (s : vars) : jsstring * vars :=
  let s := set_r [] s in
  let s := set_i 0 s in
  let s := encode64_loop (length data) data s in
  (r s, s).

(** [new TextEncoder().encode(pumlText)]: the bytes of the text. *)
Definition textEncode (pumlText : string) : list Z :=
  map code (list_ascii_of_string pumlText).

Section WithPako.
  (** [pako.deflateRaw(bytes, { level: 9 })], an external collaborator. *)
Variable deflateRaw : list Z -> result (list Z).

Definition compressAndEncode (pumlText : string) (s : vars)
    : result jsstring :=
    let escaped := textEncode pumlText in
    match deflateRaw escaped with
    | inr compressed =>
        let deflated := concat (map (fun byte => [fromCharCode byte]) compressed) in
        let encoded := fst (encode64 deflated s) in
        inr encoded
    | inl error =>
        inl ("Pako compression failed: " +:+ dquote +:+ " " +:+ error)%string
    end.

Definition encode (pumlText : string) : result jsstring :=
    compressAndEncode pumlText init.
End WithPako.

End PlantumlEncoder.


(* ===================================================================== *)
(** ** src/plantumlEncoder.js: the tagged-result encoder *)
(* ===================================================================== *)

Module PlantumlEncoderJs.
Import JS.

(** [encode64], [append3bytes] and [encode6bit] are the same three
    functions as in the TypeScript encoder; [r], [i], [c1] .. [c4] are
    module-level variables here, so the state is an argument and a result
    of every call. *)
Definition vars := PlantumlEncoder.vars.
Definition encode64 := PlantumlEncoder.encode64.

(** What the module finds in its environment: the imported [pako] with its
    [deflateRaw], and the global functions [deflate] and [zip_deflate] of
    the js-deflate script. *)
Record env := Env {
  pako_deflateRaw : option (jsstring -> result (list Z));
  deflate : option (jsstring -> result jsstring);
  zip_deflate : option (jsstring -> result jsstring)
}.

(** The returned object [{ data, type }]. *)
Record encoded := Encoded { data : jsstring; type : string }.

(** [n.toString(16)] for a code unit [n]. *)
Definition hexdigit (d : Z) : Z := if d <? 10 then 48 + d else 87 + d.

Definition toString16 (n : Z) : jsstring :=
  if n <? 16 then [hexdigit n]
  else if n <? 256 then [hexdigit (n / 16); hexdigit (n mod 16)]
  else if n <? 4096 then
    [hexdigit (n / 256); hexdigit (n / 16 mod 16); hexdigit (n mod 16)]
  else
    [hexdigit (n / 4096); hexdigit (n / 256 mod 16);
     hexdigit (n / 16 mod 16); hexdigit (n mod 16)].

(** [s.padStart(2, "0")] *)
Definition padStart2 (s : jsstring) : jsstring :=
  repeat 48 (2 - length s) ++ s.

Fixpoint convertToHex (text : jsstring) : jsstring :=
  match text with
  | [] => []
  | charCode :: text => padStart2 (toString16 charCode) ++ convertToHex text
  end.

(** [unescape(encodeURIComponent(plantumlText))]: the string whose code
    units are the UTF-8 bytes of the text. *)
Definition utf8String (plantumlText : string) : jsstring :=
  PlantumlEncoder.textEncode plantumlText.

(** The lines written to the console, and the outcome of the call. *)
Definition outcome : Type := (list string * result (encoded * vars))%type.

(** The part of [compressAndEncode] after the pako block. *)
Definition fallback (e : env) (s : jsstring) (v : vars) (console : list string)
  : outcome :=
  match deflate e with
  | Some deflate =>
      match deflate s with
      | inr d => let '(enc, v) := encode64 d v in
                 (console, inr (Encoded enc "deflate", v))
      | inl error => (console, inl error)
      end
  | None =>
      match zip_deflate e with
      | Some zip_deflate =>
          match zip_deflate s with
          | inr d => let '(enc, v) := encode64 d v in
                     (console, inr (Encoded enc "deflate", v))
          | inl error => (console, inl error)
          end
      | None =>
          (console ++ ["No compression library available - using HEX encoding fallback"%string],
           inr (Encoded (convertToHex s) "hex", v))
      end
  end.

Definition compressAndEncode (e : env) (plantumlText : string) (v : vars)
  : outcome :=
  let s := utf8String plantumlText in
  match pako_deflateRaw e with
  | Some deflateRaw =>
      match deflateRaw s with
      | inr compressed =>
          let deflated := concat (map (fun byte => [fromCharCode byte]) compressed) in
          let '(enc, v) := encode64 deflated v in
          ([], inr (Encoded enc "deflate", v))
      | inl error =>
          fallback e s v [("Pako compression failed: " +:+ error)%string]
      end
  | None => fallback e s v []
  end.

Definition generatePlantUMLImageUrl (e : env) (plantumlText : string)
    (baseUrl : jsstring) (v : vars) : list string * result (jsstring * vars) :=
  match compressAndEncode e plantumlText v with
  | (console, inr (res, v)) =>
      if String.eqb (type res) "hex"
      then (console, inr (baseUrl ++ lit "~h" ++ data res, v))
      else (console, inr (baseUrl ++ data res, v))
  | (console, inl error) => (console, inl error)
  end.

End PlantumlEncoderJs.

(* ===================================================================== *)
(** ** The decoding side named by the specification *)
(* ===================================================================== *)

(** The repository only encodes.  The inverse of the 64-character
    transform is written here from the specification's description of the
    transform: four characters give back three bytes. *)
Module SpecDecoder.
Import JS.

Definition spec_decode6bit (c : Z) : option Z :=
  if (48 <=? c) && (c <=? 57) then Some (c - 48)
  else if (65 <=? c) && (c <=? 90) then Some (c - 65 + 10)
  else if (97 <=? c) && (c <=? 122) then Some (c - 97 + 36)
  else if c =? 45 then Some 62
  else if c =? 95 then Some 63
  else None.

Definition spec_decode3bytes (v1 v2 v3 v4 : Z) : list Z :=
  [ v1 * 4 + v2 / 16; (v2 mod 16) * 16 + v3 / 4; (v3 mod 4) * 64 + v4 ].

Fixpoint spec_decode64 (token : jsstring) : option (list Z) :=
  match token with
  | [] => Some []
  | k1 :: k2 :: k3 :: k4 :: token =>
      match spec_decode6bit k1, spec_decode6bit k2,
            spec_decode6bit k3, spec_decode6bit k4, spec_decode64 token with
      | Some v1, Some v2, Some v3, Some v4, Some bytes =>
          Some (spec_decode3bytes v1 v2 v3 v4 ++ bytes)
      | _, _, _, _, _ => None
      end
  | _ => None
  end.

(** The text whose UTF-8 bytes are given. *)
Definition spec_textDecode (bytes : list Z) : string :=
  string_of_list_ascii (map (fun b => ascii_of_N (Z.to_N b)) bytes).

(** Inverse transform, then decompression, then UTF-8 decoding. *)
Definition spec_decode (inflateRaw : list Z -> option (list Z))
    (token : jsstring) : option string :=
  match spec_decode64 token with
  | Some padded =>
      match inflateRaw padded with
      | Some bytes => Some (spec_textDecode bytes)
      | None => None
      end
  | None => None
  end.

End SpecDecoder.

(** A small DEFLATE codec used to instantiate the external compressor: one
    stored (uncompressed) final block, [01 LEN NLEN data]; inputs of 65536
    bytes or more are refused. *)
Module StoredDeflate.
Import JS.

Definition deflateRaw (input : list Z) : result (list Z) :=
  let len := Z.of_nat (length input) in
  if len <? 65536 then
    inr ([1; len mod 256; len / 256; 255 - len mod 256; 255 - len / 256] ++ input)
  else inl "Error: stored block too long"%string.

Definition inflateRaw (stream : list Z) : option (list Z) :=
  match stream with
  | 1 :: lo :: hi :: nlo :: nhi :: rest =>
      let len := lo + 256 * hi in
      if (nlo =? 255 - lo) && (nhi =? 255 - hi)
         && (len <=? Z.of_nat (length rest))
      then Some (firstn (Z.to_nat len) rest)
      else None
  | _ => None
  end.

(** The same codec given a string: as pako does, it compresses the bytes of
    the UTF-8 encoding of the string; written out for code units below
    2048, one byte below 128 and two bytes from there. *)
Definition utf8OfUnit (c : Z) : list Z :=
  if c <? 128 then [c] else [192 + c / 64; 128 + c mod 64].

Definition deflateRawOfString (s : jsstring) : result (list Z) :=
  deflateRaw (flat_map utf8OfUnit s).

(** A compressor that always throws. *)
Definition failing (input : list Z) : result (list Z) :=
  inl "Error: out of memory"%string.

End StoredDeflate.

(* ===================================================================== *)
(** ** src/config.js *)
(* ===================================================================== *)

Module CONFIG.
Import JS.
Local Open Scope string_scope.

Definition PLANTUML_ENDPOINT : string := "http://www.plantuml.com/plantuml/img/".
Definition WELL_KNOWN_TYPE_PREFIX : string := "google.protobuf.".

Module UML.
Module RELATIONSHIPS.
Definition COMPOSITION : string := "--*".
Definition AGGREGATION : string := "--o".
Definition ASSOCIATION : string := "-->".
End RELATIONSHIPS.
Module CARDINALITY.
Definition OPTIONAL : string := dquote +:+ "0..1" +:+ dquote.
Definition REQUIRED : string := dquote +:+ "1" +:+ dquote.
Definition MULTIPLE : string := dquote +:+ "0..*" +:+ dquote.
End CARDINALITY.
End UML.

End CONFIG.

(* ===================================================================== *)
(** ** The reflection tree of protobufjs, as far as the code reads it *)
(* ===================================================================== *)

(** A property holding a string is the empty string when it is missing:
    the code only tests such properties for truthiness before use. *)
Definition truthy (s : string) : bool :=
  match s with EmptyString => false | String _ _ => true end.

(** [a || b] on strings. *)
Definition or_else (a b : string) : string := if truthy a then a else b.

(** A field of the tree always has a [name]. *)
Module Field.
Record t := mk {
  name : string;
  type : string;
  map : bool;
  repeated : bool;
  rule : option string;
  partOf : option string;      (* the oneof the field belongs to *)
  keyType : string;
  reserved : bool
}.
End Field.

Module OneOf.
Record t := mk { fieldsArray : option (list Field.t) }.
End OneOf.

Module Method.
Record t := mk { name : string; requestType : string; responseType : string }.
End Method.

Module Protobuf.

(** [Type_], [Enum] and [Service] are the instances of [protobuf.Type],
    [protobuf.Enum] and [protobuf.Service]; [Namespace] is any other
    object; [Null] is a null or undefined entry.  [nested] is [None] when
    the property is undefined. *)
Inductive node : Type :=
| Null
| Namespace (nested : option entries)
| Type_ (name : string) (fieldsArray : list (option Field.t))
        (oneofs : option (list (string * OneOf.t))) (nested : option entries)
| Enum (name : string) (values : option (list (string * Z)))
| Service (name : string) (methods : option (list (string * option Method.t)))
          (nested : option entries)
with entries : Type :=
| ENil
| ECons (key : string) (value : node) (rest : entries).

Definition nested (n : node) : option entries :=
  match n with
  | Namespace ns | Type_ _ _ _ ns | Service _ _ ns => ns
  | Null | Enum _ _ => None
  end.

(** [value instanceof protobuf.Type || ... Enum || ... Service] *)
Definition isContent (value : node) : bool :=
  match value with
  | Type_ _ _ _ _ | Enum _ _ | Service _ _ _ => true
  | Null | Namespace _ => false
  end.

Definition isEnum (value : node) : bool :=
  match value with Enum _ _ => true | _ => false end.

(** [Object.values(es).some(pred)] *)
Fixpoint some (pred : node -> bool) (es : entries) : bool :=
  match es with
  | ENil => false
  | ECons _ value rest => pred value || some pred rest
  end.

(** Induction over a tree and over the entries of its namespaces at
    once. *)
Section Induction.
Variable P : node -> Prop.
Variable Q : entries -> Prop.

Definition onNested (o : option entries) : Prop :=
  match o with Some es => Q es | None => True end.

Hypothesis HNull : P Null.
Hypothesis HNamespace : forall o, onNested o -> P (Namespace o).
Hypothesis HType : forall name fieldsArray oneofs o,
  onNested o -> P (Type_ name fieldsArray oneofs o).
Hypothesis HEnum : forall name values, P (Enum name values).
Hypothesis HService : forall name methods o,
  onNested o -> P (Service name methods o).
Hypothesis HNil : Q ENil.
Hypothesis HCons : forall key value rest,
  P value -> Q rest -> Q (ECons key value rest).

Fixpoint node_all (n : node) : P n :=
  match n with
  | Null => HNull
  | Namespace o =>
      HNamespace o
        match o return onNested o with Some es => entries_all es | None => I end
  | Type_ name fieldsArray oneofs o =>
      HType name fieldsArray oneofs o
        match o return onNested o with Some es => entries_all es | None => I end
  | Enum name values => HEnum name values
  | Service name methods o =>
      HService name methods o
        match o return onNested o with Some es => entries_all es | None => I end
  end
with entries_all (es : entries) : Q es :=
  match es with
  | ENil => HNil
  | ECons key value rest => HCons key value rest (node_all value) (entries_all rest)
  end.

Definition node_entries_ind : (forall n, P n) /\ (forall es, Q es) :=
  conj node_all entries_all.

End Induction.

End Protobuf.

(* ===================================================================== *)
(** ** String helpers standing for the built-in methods the code calls *)
(* ===================================================================== *)

Module Str.
Local Open Scope string_scope.

Definition newline : string := String (ascii_of_nat 10) EmptyString.

Definition isLower (c : ascii) : bool :=
  let n := nat_of_ascii c in ((97 <=? n) && (n <=? 122))%nat.
Definition isUpper (c : ascii) : bool :=
  let n := nat_of_ascii c in ((65 <=? n) && (n <=? 90))%nat.

(** [letter.toUpperCase()] and [c.toLowerCase()] on one character; only
    the letters of ASCII have another case here. *)
Definition upper (c : ascii) : ascii :=
  if isLower c then ascii_of_nat (nat_of_ascii c - 32) else c.
Definition lower (c : ascii) : ascii :=
  if isUpper c then ascii_of_nat (nat_of_ascii c + 32) else c.

Fixpoint toLowerCase (s : string) : string :=
  match s with
  | EmptyString => EmptyString
  | String c s => String (lower c) (toLowerCase s)
  end.

(** [s.split('.')], with the segment read so far in [acc]. *)
Fixpoint split_dot (acc : string) (s : string) : list string :=
  match s with
  | EmptyString => [acc]
  | String c s =>
      if Ascii.eqb c "."%char then acc :: split_dot EmptyString s
      else split_dot (acc +:+ String c EmptyString) s
  end.
Definition split (s : string) : list string := split_dot EmptyString s.

(** [parts.join('.')] *)
Definition join (sep : string) (parts : list string) : string :=
  String.concat sep parts.

(** The white space and line terminators of ASCII. *)
Definition isSpace (c : ascii) : bool :=
  let n := nat_of_ascii c in ((n =? 32) || ((9 <=? n) && (n <=? 13)))%nat.

(** [String.prototype.trim] on a text given by its UTF-8 bytes: the white
    space and line terminators of ECMAScript are the ASCII ones, U+00A0,
    U+1680, U+2000 to U+200A, U+2028, U+2029, U+202F, U+205F, U+3000 and
    U+FEFF; [space2] and [space3] recognise the two-byte and three-byte
    ones. *)
Definition space2 (a b : ascii) : bool :=
  ((nat_of_ascii a =? 194) && (nat_of_ascii b =? 160))%nat.

Definition space3 (a b c : ascii) : bool :=
  let a := nat_of_ascii a in
  let b := nat_of_ascii b in
  let c := nat_of_ascii c in
  ((a =? 225) && (b =? 154) && (c =? 128)
   || (a =? 226) && (b =? 128)
      && ((128 <=? c) && (c <=? 138) || (c =? 168) || (c =? 169) || (c =? 175))
   || (a =? 226) && (b =? 129) && (c =? 159)
   || (a =? 227) && (b =? 128) && (c =? 128)
   || (a =? 239) && (b =? 187) && (c =? 191))%nat.

(** [s.trimStart()] *)
Fixpoint trimStart (s : string) : string :=
  match s with
  | EmptyString => EmptyString
  | String a rest =>
      if isSpace a then trimStart rest
      else
        match rest with
        | EmptyString => s
        | String b rest2 =>
            if space2 a b then trimStart rest2
            else
              match rest2 with
              | EmptyString => s
              | String c rest3 =>
                  if space3 a b c then trimStart rest3 else s
              end
        end
  end.

(** [s.trimEnd()]: the text up to the point from which only white space
    follows. *)
Fixpoint trimEnd (s : string) : string :=
  match s with
  | EmptyString => EmptyString
  | String a rest =>
      if truthy (trimStart s) then String a (trimEnd rest) else EmptyString
  end.

Definition trim (s : string) : string := trimEnd (trimStart s).

(** Truthiness of [s.trim()]: what is left of [s] is not empty. *)
Definition trimmed_truthy (s : string) : bool := truthy (trim s).

(** [list.includes(s)] *)
Definition includes (l : list string) (s : string) : bool :=
  existsb (String.eqb s) l.

(** [s.startsWith(prefix)] *)
Definition startsWith (s prefix : string) : bool := String.prefix prefix s.

End Str.

(* ===================================================================== *)
(** ** src/protoParser.js *)
(* ===================================================================== *)

Module ProtoParser.
Import JS Protobuf.
Local Open Scope string_scope.

(** The two sets held by a parser instance. *)
Record t := mk {
  knownTypes : gset string;
  knownEnumTypes : gset string
}.

Definition new : t := mk ∅ ∅.

Definition has (s : gset string) (x : string) : bool := bool_decide (x ∈ s).

Definition addKnownType (x : string) (p : t) : t :=
  mk ({[x]} ∪ knownTypes p) (knownEnumTypes p).
Definition addKnownEnumType (x : string) (p : t) : t :=
  mk (knownTypes p) ({[x]} ∪ knownEnumTypes p).

Definition wrap {A} (context : string) (m : result A) : result A :=
  match m with
  | inl message => inl (context +:+ message)
  | inr a => inr a
  end.

Definition generateEnumName (enumName parentName : string) : string :=
  if truthy parentName then parentName +:+ "_" +:+ enumName else enumName.

Definition collectEnumType (name : string) (parentName key : string) (p : t)
  : result t :=
  if negb (truthy name) then inl ("Enum at key '" +:+ key +:+ "' has no name")
  else
    let originalName := name in
    let prefixedName := generateEnumName name parentName in
    let p := addKnownType originalName p in
    let p := addKnownEnumType originalName p in
    if truthy parentName
    then inr (addKnownEnumType prefixedName (addKnownType prefixedName p))
    else inr p.

(** [collectTypes] and [collectMessageType] call each other; [collectLoop]
    is the [for] loop of [collectTypes] over [Object.entries(nested)].
    The call [this.collectTypes(messageType, messageType.name)] of
    [collectMessageType] is that loop over the nested entries of the
    message, written as such.
    When an error is thrown the sets are not looked at again, so the
    failing result carries the message only. *)
Fixpoint collectTypes (ns : node) (parentName : string) (p : t) {struct ns}
  : result t :=
  match ns with
  | Null => inr p
  | Namespace (Some es) | Type_ _ _ _ (Some es) | Service _ _ (Some es) =>
      collectLoop es parentName p
  | Namespace None | Type_ _ _ _ None | Service _ _ None | Enum _ _ => inr p
  end
with collectMessageType (messageType : node) (key : string) (p : t)
  {struct messageType} : result t :=
  match messageType with
  | Type_ name _ _ nested =>
      if negb (truthy name) then inl ("Type at key '" +:+ key +:+ "' has no name")
      else
        let p := addKnownType name p in
        match nested with
        | Some es => collectLoop es name p
        | None => inr p
        end
  | _ => inr p
  end
with collectLoop (es : entries) (parentName : string) (p : t) {struct es}
  : result t :=
  match es with
  | ENil => inr p
  | ECons key value rest =>
      let step :=
        match value with
        | Null => inr p
        | Type_ _ _ _ _ => collectMessageType value key p
        | Enum name _ => collectEnumType name parentName key p
        | Namespace (Some _) | Service _ _ (Some _) =>
            collectTypes value parentName p
        | Namespace None | Service _ _ None => inr p
        end in
      match wrap ("Failed to collect types from '" +:+ key +:+ "': ") step with
      | inl message => inl message
      | inr p => collectLoop rest parentName p
      end
  end.

Definition extractFieldType (field : option Field.t) (parentTypeName : string)
  : result string :=
  match field with
  | None => inl "Field cannot be null or undefined"
  | Some field =>
      if negb (truthy (Field.type field))
      then inl ("Field " +:+ or_else (Field.name field) "unknown"
                +:+ " has no type defined")
      else inr (Field.type field)
  end.

Definition isWellKnownType (fieldType : string) : bool :=
  truthy fieldType && Str.startsWith fieldType CONFIG.WELL_KNOWN_TYPE_PREFIX.

(** [str.replace(/_([a-z])/g, (match, letter) => letter.toUpperCase())]:
    the scan goes left to right and resumes after each match. *)
Fixpoint replace_underscore_lower (str : string) : string :=
  match str with
  | EmptyString => EmptyString
  | String c rest =>
      match rest with
      | String letter rest' =>
          if Ascii.eqb c "_"%char && Str.isLower letter
          then String (Str.upper letter) (replace_underscore_lower rest')
          else String c (replace_underscore_lower rest)
      | EmptyString => String c EmptyString
      end
  end.

Definition toCamelCase (str : string) : string :=
  if negb (truthy str) then str else replace_underscore_lower str.

Definition resolveTypeName (p : t) (fieldType parentTypeName : string)
  : result string :=
  if negb (truthy fieldType) then inl "Field type must be a non-empty string"
  else if has (knownTypes p) fieldType then inr fieldType
  else
    let nestedEnumName := parentTypeName +:+ "_" +:+ fieldType in
    if truthy parentTypeName && has (knownTypes p) nestedEnumName
    then inr nestedEnumName
    else inr fieldType.

Definition isOptionalField (field : Field.t) : bool :=
  match Field.rule field with
  | Some rule => String.eqb rule "optional"
  | None => false
  end
  || match Field.partOf field with Some _ => true | None => false end.

Definition getCardinality (field : option Field.t) : string :=
  match field with
  | None => CONFIG.UML.CARDINALITY.REQUIRED
  | Some field =>
      if Field.map field || Field.repeated field
      then CONFIG.UML.CARDINALITY.MULTIPLE
      else if isOptionalField field
      then CONFIG.UML.CARDINALITY.OPTIONAL
      else CONFIG.UML.CARDINALITY.REQUIRED
  end.

(** The argument is [None] for a value that is not a string (null,
    undefined, ...). *)
Definition getRelationshipType (p : t) (resolvedType : option string) : string :=
  match resolvedType with
  | None => CONFIG.UML.RELATIONSHIPS.COMPOSITION
  | Some resolvedType =>
      if negb (truthy resolvedType) then CONFIG.UML.RELATIONSHIPS.COMPOSITION
      else if has (knownEnumTypes p) resolvedType
      then CONFIG.UML.RELATIONSHIPS.COMPOSITION
      else CONFIG.UML.RELATIONSHIPS.AGGREGATION
  end.

End ProtoParser.

(* ===================================================================== *)
(** ** src/plantUMLGenerator.js *)
(* ===================================================================== *)

Module PlantUMLGenerator.
Import JS Protobuf.
Local Open Scope string_scope.

(** The mutable members of a generator instance.  [relationSet] is the
    JavaScript [Set] that tracks the strings already in [relations]. *)
Record t := mk {
  lines : list string;
  relations : list string;
  relationSet : gset string
}.

Definition push (line : string) (g : t) : t :=
  mk (lines g ++ [line]) (relations g) (relationSet g).

Definition wrap := @ProtoParser.wrap.

(** Sequencing of two steps, the second one skipped when the first throws. *)
Definition andThen (m : result t) (k : t -> result t) : result t :=
  match m with
  | inl message => inl message
  | inr g => k g
  end.
Notation "m >>> k" := (andThen m k) (at level 60, right associativity).

(** *** Package analysis *)

(** [found !== value] compares object identities; the second component
    tells whether the namespace returned is the argument itself. *)
Fixpoint findContentNamespace (ns : node) {struct ns} : node * bool :=
  match ns with
  | Null => (ns, true)
  | Namespace None | Type_ _ _ _ None | Service _ _ None | Enum _ _ => (ns, true)
  | Namespace (Some es) | Type_ _ _ _ (Some es) | Service _ _ (Some es) =>
      if some isContent es then (ns, true)
      else match findContentLoop es with
           | Some found => (found, false)
           | None => (ns, true)
           end
  end
with findContentLoop (es : entries) {struct es} : option node :=
  match es with
  | ENil => None
  | ECons key value rest =>
      match value with
      | Namespace (Some _) | Type_ _ _ _ (Some _) | Service _ _ (Some _) =>
          let '(found, same) := findContentNamespace value in
          if negb same then Some found else findContentLoop rest
      | _ => findContentLoop rest
      end
  end.

Definition hasDirectContent (namespace : node) : bool :=
  match nested namespace with
  | None => false
  | Some es => some isContent es
  end.

(** [traverse] of [countContentAtLevels]; the counter is threaded. *)
Fixpoint traverse (namespace : node) (contentLevels : nat) {struct namespace}
  : nat :=
  let contentLevels :=
    if hasDirectContent namespace then S contentLevels else contentLevels in
  match namespace with
  | Namespace (Some es) | Type_ _ _ _ (Some es) | Service _ _ (Some es) =>
      traverseLoop es contentLevels
  | _ => contentLevels
  end
with traverseLoop (es : entries) (contentLevels : nat) {struct es} : nat :=
  match es with
  | ENil => contentLevels
  | ECons _ value rest =>
      match value with
      | Namespace (Some _) | Service _ _ (Some _) =>
          traverseLoop rest (traverse value contentLevels)
      | _ => traverseLoop rest contentLevels
      end
  end.

Definition countContentAtLevels (ns : node) : nat := traverse ns 0.

Definition meaningfulNames : list string :=
  ["api"; "service"; "event"; "model"; "dto"; "proto"; "message"; "client"; "server"].

(** [packageParts[packageParts.length - 1]] *)
Definition lastPart (packageParts : list string) : string :=
  List.last packageParts EmptyString.

Definition shouldUsePackageBlock (packageParts : list string)
    (contentLevels : nat) (targetNamespace : node) : bool :=
  if (1 <? contentLevels)%nat then true
  else if Str.includes meaningfulNames (Str.toLowerCase (lastPart packageParts))
  then true
  else if (3 <=? length packageParts)%nat && (length packageParts <=? 6)%nat
  then true
  else if (length packageParts <=? 2)%nat then false
  else if (8 <? length packageParts)%nat then false
  else true.

Definition meaningfulNamesForDisplay : list string :=
  ["api"; "service"; "event"; "model"; "dto"; "proto"; "message"].

Definition getOptimalPackageName (packageParts : list string)
    (shouldUsePackage : bool) : string :=
  if negb shouldUsePackage then EmptyString
  else if (length packageParts <=? 6)%nat then Str.join "." packageParts
  else if Str.includes meaningfulNamesForDisplay
            (Str.toLowerCase (lastPart packageParts))
  then Str.join "." (skipn (length packageParts - 4) packageParts)
  else if (8 <? length packageParts)%nat
  then List.hd EmptyString packageParts +:+ "..."
       +:+ Str.join "." (skipn (length packageParts - 3) packageParts)
  else Str.join "." packageParts.

Record packageInfo := PackageInfo {
  shouldUsePackage : bool;
  displayName : string;
  targetNamespace : node
}.

Definition analyzePackageStructure (root : node) (packageName : string)
  : packageInfo :=
  let targetNamespace := fst (findContentNamespace root) in
  let packageParts := Str.split packageName in
  let contentLevels := countContentAtLevels root in
  let shouldUsePackage :=
    shouldUsePackageBlock packageParts contentLevels targetNamespace in
  let displayName := getOptimalPackageName packageParts shouldUsePackage in
  PackageInfo shouldUsePackage displayName targetNamespace.

(** *** Emission *)

Section Emit.
(** The parser whose sets were filled by [collectTypes]; generation only
    reads them. *)
Variable parser : ProtoParser.t.

Definition addRelation (relation : string) (g : t) : t :=
  if ProtoParser.has (relationSet g) relation then g
  else mk (lines g) (relations g ++ [relation]) ({[relation]} ∪ relationSet g).

Definition createRelationship (field : Field.t) (fieldType parentTypeName : string)
    (g : t) : result t :=
  match ProtoParser.resolveTypeName parser fieldType parentTypeName with
  | inl message => inl message
  | inr resolvedType =>
      if ProtoParser.has (ProtoParser.knownTypes parser) resolvedType then
        let cardinality := ProtoParser.getCardinality (Some field) in
        let relationshipType :=
          ProtoParser.getRelationshipType parser (Some resolvedType) in
        let relationshipString :=
          parentTypeName +:+ " " +:+ relationshipType +:+ " " +:+ cardinality
          +:+ " " +:+ resolvedType in
        inr (addRelation relationshipString g)
      else inr g
  end.

Definition displayTypeOf (field : Field.t) (fieldType : string) : string :=
  let displayType := fieldType in
  let displayType :=
    if Field.map field
    then "map<" +:+ or_else (Field.keyType field) "string" +:+ ", "
         +:+ fieldType +:+ ">"
    else displayType in
  let displayType :=
    if Field.repeated field && negb (Field.map field)
    then displayType +:+ " [ ]" else displayType in
  if ProtoParser.isOptionalField field
  then displayType +:+ " ?" else displayType.

Definition processMessageField (field : Field.t) (parentTypeName : string)
    (g : t) : result t :=
  match ProtoParser.extractFieldType (Some field) parentTypeName with
  | inl message => inl message
  | inr fieldType =>
      let displayType := displayTypeOf field fieldType in
      let fieldName := ProtoParser.toCamelCase (Field.name field) in
      let g := push ("  " +:+ fieldName +:+ " : " +:+ displayType) g in
      if negb (ProtoParser.isWellKnownType fieldType)
      then createRelationship field fieldType parentTypeName g
      else inr g
  end.

(** [fields.filter((field) => field && !field.reserved)] *)
Definition keptFields (fieldsArray : list (option Field.t)) : list Field.t :=
  omap (fun field =>
          match field with
          | Some f => if Field.reserved f then None else Some f
          | None => None
          end) fieldsArray.

(** The [forEach] over the kept fields of a message. *)
Fixpoint processFields (fields : list Field.t) (messageName : string) (g : t)
  : result t :=
  match fields with
  | [] => inr g
  | field :: fields =>
      wrap _ ("Failed to process field in " +:+ messageName +:+ ": ")
           (processMessageField field messageName g)
      >>> processFields fields messageName
  end.

(** The three lines written for one oneof group, if any. *)
Definition oneofNote (messageName : string) (oneof : OneOf.t) : list string :=
  match OneOf.fieldsArray oneof with
  | Some fieldsArray =>
      if (1 <? length fieldsArray)%nat then
        let fieldNames :=
          Str.join " or "
            (List.map (fun field => ProtoParser.toCamelCase (Field.name field))
                      fieldsArray) in
        [ "note right of " +:+ messageName;
          "  Only one of " +:+ fieldNames +:+ " is set";
          "end note" ]
      else []
  | None => []
  end.

Definition processOneofNotes (messageName : string)
    (oneofs : option (list (string * OneOf.t))) (g : t) : t :=
  match oneofs with
  | None => g
  | Some oneofs =>
      fold_left (fun g entry =>
                   fold_left (fun g line => push line g)
                             (oneofNote messageName (snd entry)) g)
                oneofs g
  end.

Definition processEnumType (name : string) (values : option (list (string * Z)))
    (parentName : string) (g : t) : result t :=
  if negb (truthy name) then inl "Enum type must have a valid name"
  else match values with
       | None => inl ("Enum " +:+ name +:+ " must have valid values")
       | Some values =>
           let enumName := name in
           let g := push ("enum " +:+ enumName +:+ " {") g in
           let g := fold_left (fun g entry =>
                                 let enumValue := fst entry in
                                 if truthy enumValue
                                 then push ("  " +:+ enumValue) g else g)
                              values g in
           inr (push "}" g)
       end.

(** The body of the [forEach] over the methods of a service. *)
Definition processMethod (serviceName : string) (method : option Method.t)
    (g : t) : result t :=
  match method with
  | None => inl ("Invalid method in service " +:+ serviceName)
  | Some method =>
      if negb (truthy (Method.name method))
      then inl ("Invalid method in service " +:+ serviceName)
      else
        let requestType := or_else (Method.requestType method) "Unknown" in
        let responseType := or_else (Method.responseType method) "Unknown" in
        let g := push ("  " +:+ Method.name method +:+ "(" +:+ requestType
                       +:+ ") : " +:+ responseType) g in
        let requestRelation :=
          serviceName +:+ " " +:+ CONFIG.UML.RELATIONSHIPS.ASSOCIATION
          +:+ " " +:+ requestType in
        let responseRelation :=
          serviceName +:+ " " +:+ CONFIG.UML.RELATIONSHIPS.ASSOCIATION
          +:+ " " +:+ responseType in
        inr (addRelation responseRelation (addRelation requestRelation g))
  end.

Fixpoint processMethods (serviceName : string)
    (methods : list (string * option Method.t)) (g : t) : result t :=
  match methods with
  | [] => inr g
  | entry :: methods =>
      processMethod serviceName (snd entry) g >>> processMethods serviceName methods
  end.

Definition processServiceType (name : string)
    (methods : option (list (string * option Method.t))) (g : t) : result t :=
  if negb (truthy name) then inl "Service type must have a valid name"
  else match methods with
       | None => inl ("stereotype " +:+ name +:+ " must have valid methods")
       | Some methods =>
           let g := push ("stereotype " +:+ name +:+ " {") g in
           processMethods name methods g >>> (fun g => inr (push "}" g))
       end.

(** [processMessageType] and [processNamespace] call each other;
    [processLoop] is the [for] loop of [processNamespace].  The call
    [this.processNamespace(messageType, "")] of [processMessageType] is
    that loop over the nested entries of the message, written as such.
    [processMessageType] is only ever applied to instances of
    [protobuf.Type]. *)
Fixpoint processMessageType (messageType : node) (g : t) {struct messageType}
  : result t :=
  match messageType with
  | Type_ name fieldsArray oneofs nested =>
      if negb (truthy name) then inl "Message type must have a valid name"
      else
        let hasNestedTypes :=
          match nested with Some es => some isEnum es | None => false end in
        let g := if hasNestedTypes
                 then push ("component " +:+ dquote +:+ name +:+ " Types"
                            +:+ dquote +:+ " {") g
                 else g in
        let g := push ("object " +:+ name +:+ " {") g in
        processFields (keptFields fieldsArray) name g >>> (fun g =>
        let g := push "}" g in
        let g := processOneofNotes name oneofs g in
        match nested with
        | Some es => processLoop es EmptyString g
        | None => inr g
        end >>> (fun g =>
        inr (if hasNestedTypes then push "}" g else g)))
  | _ => inl "Message type must have a valid name"
  end
with processNamespace (ns : node) (parentName : string) (g : t) {struct ns}
  : result t :=
  match ns with
  | Null => inl "Invalid namespace object provided"
  | Namespace (Some es) | Type_ _ _ _ (Some es) | Service _ _ (Some es) =>
      processLoop es parentName g
  | Namespace None | Type_ _ _ _ None | Service _ _ None | Enum _ _ => inr g
  end
with processLoop (es : entries) (parentName : string) (g : t) {struct es}
  : result t :=
  match es with
  | ENil => inr g
  | ECons key value rest =>
      wrap _ ("Failed to process " +:+ key +:+ ": ")
        match value with
        | Type_ _ _ _ _ => processMessageType value g
        | Enum name values => processEnumType name values parentName g
        | Service name methods _ => processServiceType name methods g
        | Namespace (Some _) => processNamespace value parentName g
        | Namespace None | Null => inr g
        end
      >>> processLoop rest parentName
  end.

(** *** Flat processing under a package block *)

Record content := Content {
  messages : list node;
  enums : list node;
  services : list node
}.

Definition appendContent (a b : content) : content :=
  Content (messages a ++ messages b) (enums a ++ enums b)
          (services a ++ services b).

Fixpoint collectAllContent (ns : node) {struct ns} : content :=
  match ns with
  | Namespace (Some es) | Type_ _ _ _ (Some es) | Service _ _ (Some es) =>
      collectAllLoop es (Content [] [] [])
  | _ => Content [] [] []
  end
with collectAllLoop (es : entries) (acc : content) {struct es} : content :=
  match es with
  | ENil => acc
  | ECons _ value rest =>
      let acc :=
        match value with
        | Type_ _ _ _ _ => appendContent acc (Content [value] [] [])
        | Enum _ _ => appendContent acc (Content [] [value] [])
        | Service _ _ _ => appendContent acc (Content [] [] [value])
        | Namespace (Some _) => appendContent acc (collectAllContent value)
        | Namespace None | Null => acc
        end in
      collectAllLoop rest acc
  end.

Fixpoint forEach (f : node -> t -> result t) (l : list node) (g : t) : result t :=
  match l with
  | [] => inr g
  | x :: l => f x g >>> forEach f l
  end.

Definition processNamespaceFlat (ns : node) (g : t) : result t :=
  let allContent := collectAllContent ns in
  forEach processMessageType (messages allContent) g >>> (fun g =>
  forEach (fun enumType g =>
             match enumType with
             | Enum name values => processEnumType name values EmptyString g
             | _ => inr g
             end) (enums allContent) g >>> (fun g =>
  forEach (fun serviceType g =>
             match serviceType with
             | Service name methods _ => processServiceType name methods g
             | _ => inr g
             end) (services allContent) g)).

(** *** The entry point *)

Definition header : list string :=
  [ "@startuml"; "!pragma useIntermediatePackages false";
    "skinparam componentStyle rectangle" ].

(** The state after the reset at the top of [generateFromRoot]. *)
Definition reset : t := mk header [] ∅.

(** The line that opens the package block. *)
Definition packageLine (displayName : string) : string :=
  "package " +:+ dquote +:+ displayName +:+ dquote +:+ " {".

(** The [try] block of [generateFromRoot]; [packageName] is [None] for
    null. *)
Definition processRoot (root : node) (packageName : option string) (g : t)
  : result t :=
  match packageName with
  | Some packageName =>
      if truthy packageName && Str.trimmed_truthy packageName then
        let packageInfo := analyzePackageStructure root packageName in
        if shouldUsePackage packageInfo then
          let g := push (packageLine (displayName packageInfo)) g in
          processNamespaceFlat (targetNamespace packageInfo) g >>> (fun g =>
          inr (push "}" g))
        else processNamespace (targetNamespace packageInfo) EmptyString g
      else processNamespace root EmptyString g
  | None => processNamespace root EmptyString g
  end.

(** The final state of a generation: [lines] holds the whole diagram. *)
Definition generate (root : node) (packageName : option string) : result t :=
  match root with
  | Null => inl "Root namespace is required for PlantUML generation"
  | _ =>
      wrap _ "Failed to process protobuf namespace: "
           (processRoot root packageName reset)
      >>> (fun g =>
      let g := fold_left (fun g relation => push relation g) (relations g) g in
      inr (push "@enduml" g))
  end.

Definition generateFromRoot (root : node) (packageName : option string)
  : result string :=
  match generate root packageName with
  | inl message => inl message
  | inr g => inr (Str.join Str.newline (lines g))
  end.

End Emit.

End PlantUMLGenerator.

(* ===================================================================== *)
(** ** Vocabulary of the statements *)
(* ===================================================================== *)

Module EncoderSpec.
Import JS.

Definition isByte (b : Z) : Prop := 0 <= b < 256.

(** The alphabet as the specification lists it: 0-9 to the digits, 10-35
    to the upper-case letters, 36-61 to the lower-case letters, 62 to [-]
    and 63 to [_]. *)
Definition spec_alphabet (v : Z) : Z :=
  if v <? 10 then code "0" + v
  else if v <? 36 then code "A" + (v - 10)
  else if v <? 62 then code "a" + (v - 36)
  else if v =? 62 then code "-"
  else code "_".

(** The bit split of one group as the specification words it. *)
Definition spec_group (b1 b2 b3 : Z) : jsstring :=
  [ spec_alphabet (b1 / 4);
    spec_alphabet ((b1 mod 4) * 16 + b2 / 16);
    spec_alphabet ((b2 mod 16) * 4 + b3 / 64);
    spec_alphabet (b3 mod 64) ].

(** Three bytes at a time, the last group padded with zero bytes. *)
Fixpoint spec_encode64 (data : list Z) : jsstring :=
  match data with
  | [] => []
  | [b1] => spec_group b1 0 0
  | [b1; b2] => spec_group b1 b2 0
  | b1 :: b2 :: b3 :: rest => spec_group b1 b2 b3 ++ spec_encode64 rest
  end.

(** The 64 characters of the URL-safe alphabet. *)
Definition alphabet : string :=
  "0123456789ABCDEFGHIJKLMNOPQRSTUVWXYZabcdefghijklmnopqrstuvwxyz-_".

Definition inAlphabet (c : Z) : Prop := In c (lit alphabet).

(** The four characters [append3bytes] returns, whatever the shared
    variables held before the call. *)
Definition quad (b1 b2 b3 : Z) : jsstring :=
  PlantumlEncoder.encode6bit (JS.and (shr b1 2) 63)
  ++ PlantumlEncoder.encode6bit (JS.and (JS.or (shl (JS.and b1 3) 4) (shr b2 4)) 63)
  ++ PlantumlEncoder.encode6bit (JS.and (JS.or (shl (JS.and b2 15) 2) (shr b3 6)) 63)
  ++ PlantumlEncoder.encode6bit (JS.and (JS.and b3 63) 63).

(** The groups [encode64] hands to [append3bytes], by recursion on the
    input. *)
Fixpoint quads (data : list Z) : jsstring :=
  match data with
  | [] => []
  | [b1] => quad b1 0 0
  | [b1; b2] => quad b1 b2 0
  | b1 :: b2 :: b3 :: rest => quad b1 b2 b3 ++ quads rest
  end.

(** The checks behind the bit split, as boolean tests: the operators on
    one byte, and the union of a shifted field with a low field. *)
Definition byte_ops_ok (a : Z) : bool :=
  (shr a 2 =? a / 4) && (JS.and a 3 =? a mod 4) && (shr a 4 =? a / 16)
  && (JS.and a 15 =? a mod 16) && (shr a 6 =? a / 64) && (JS.and a 63 =? a mod 64).

Definition or_shl_ok (x y : Z) : bool :=
  (if x <? 4 then JS.or (shl x 4) y =? x * 16 + y else true)
  && (if y <? 4 then JS.or (shl x 2) y =? x * 4 + y else true).

(** Number of zero bytes that complete the last group. *)
Definition padding (n : nat) : nat := ((3 - n mod 3) mod 3)%nat.

End EncoderSpec.

Module ResolverSpec.
Import Protobuf.
Local Open Scope string_scope.

(** The conversion as the specification words it: the underscores are
    removed and the first letter after each underscore is upper-cased.
    [up] tells that an underscore was just dropped. *)
Fixpoint spec_camel (up : bool) (name : string) : string :=
  match name with
  | EmptyString => EmptyString
  | String c rest =>
      if Ascii.eqb c "_"%char then spec_camel true rest
      else String (if up then Str.upper c else c) (spec_camel false rest)
  end.

Fixpoint no_underscore (name : string) : bool :=
  match name with
  | EmptyString => true
  | String c rest => negb (Ascii.eqb c "_"%char) && no_underscore rest
  end.

(** Every underscore is immediately followed by a lower-case letter. *)
Fixpoint strict_snake (name : string) : bool :=
  match name with
  | EmptyString => true
  | String c rest =>
      if Ascii.eqb c "_"%char then
        match rest with
        | String letter _ => Str.isLower letter && strict_snake rest
        | EmptyString => false
        end
      else strict_snake rest
  end.

(** The text starts with a lower-case letter a-z: an underscore in front
    of it is one that [toCamelCase] replaces. *)
Definition lowerFirst (s : string) : bool :=
  match s with
  | String letter _ => Str.isLower letter
  | EmptyString => false
  end.




(** The two ways a generation changes its state: one more line, or one
    more relationship offered to the set. *)
Inductive step : PlantUMLGenerator.t -> PlantUMLGenerator.t -> Prop :=
| step_push line g : step g (PlantUMLGenerator.push line g)
| step_relation relation g : step g (PlantUMLGenerator.addRelation relation g).

(** No relationship twice, and the set tracks the list. *)
Definition deduplicated (g : PlantUMLGenerator.t) : Prop :=
  NoDup (PlantUMLGenerator.relations g)
  /\ forall x, x ∈ PlantUMLGenerator.relationSet g
               <-> In x (PlantUMLGenerator.relations g).

(** [l1] is [l2] with elements added at the end. *)
Definition extends (l1 l2 : list string) : Prop :=
  exists more, l1 = (l2 ++ more)%list.

End ResolverSpec.

(** Schemas used in the examples. *)
Module Examples.
Import Protobuf.
Local Open Scope string_scope.

Definition plainField (name type : string) : option Field.t :=
  Some (Field.mk name type false false None None EmptyString false).
Definition repeatedField (name type : string) : option Field.t :=
  Some (Field.mk name type false true None None EmptyString false).
Definition oneofField (name type group : string) : Field.t :=
  Field.mk name type false false None (Some group) EmptyString false.

(** [message User { repeated Address addresses = 1; }  message Address {
    string street = 1; }] *)
Definition User : node :=
  Type_ "User" [repeatedField "addresses" "Address"] None None.
Definition Address : node :=
  Type_ "Address" [plainField "street" "string"] None None.
Definition userAddress : node :=
  Namespace (Some (ECons "User" User (ECons "Address" Address ENil))).

(** The parser after [collectTypes] on a tree. *)
Definition parserOf (root : node) : ProtoParser.t :=
  match ProtoParser.collectTypes root EmptyString ProtoParser.new with
  | inr p => p
  | inl _ => ProtoParser.new
  end.

(** [package a; message M { string name = 1; }] *)
Definition M : node := Type_ "M" [plainField "name" "string"] None None.
Definition packageA : node :=
  Namespace (Some (ECons "a" (Namespace (Some (ECons "M" M ENil))) ENil)).



(** [message Task { enum State { OPEN = 0; } State state = 1; }
    enum Priority { LOW = 0; }] *)
Definition Task : node :=
  Type_ "Task" [plainField "state" "State"] None
        (Some (ECons "State" (Enum "State" (Some [("OPEN", 0)])) ENil)).
Definition nestedStatus : node :=
  Namespace (Some (ECons "Task" Task
    (ECons "Priority" (Enum "Priority" (Some [("LOW", 0)])) ENil))).

(** A message with a oneof of two fields and a oneof of one field. *)
Definition payByCard : Field.t := oneofField "credit_card" "string" "method".
Definition payByBank : Field.t := oneofField "bank_account" "string" "method".
Definition note : Field.t := oneofField "note" "string" "_note".
Definition Payment : node :=
  Type_ "Payment" [Some payByCard; Some payByBank; Some note]
        (Some [("method", OneOf.mk (Some [payByCard; payByBank]));
               ("_note", OneOf.mk (Some [note]))])
        None.

(** Two fields of [Customer] with the same target and different
    cardinalities, and a third that repeats the first. *)
Definition Customer : node :=
  Type_ "Customer" [plainField "home" "Address"; repeatedField "others" "Address";
                    plainField "work" "Address"] None None.
Definition customerAddress : node :=
  Namespace (Some (ECons "Customer" Customer (ECons "Address" Address ENil))).

End Examples.

Module Diagrams.
Import Protobuf Examples.

(** The final state of the generation for a tree whose types were
    collected from the tree itself. *)
Definition diagram (root : node) (packageName : option string)
  : PlantUMLGenerator.t :=
  match PlantUMLGenerator.generate (parserOf root) root packageName with
  | inr g => g
  | inl _ => PlantUMLGenerator.reset
  end.

End Diagrams.

(** What a tree declares, read off the tree alone: the names of its
    messages and enumerations, each enumeration also under the composite
    name [Message_Enum] when a message encloses it.  The flag tells the
    enumerations. *)
Module Declared.
Import Protobuf.
Local Open Scope string_scope.

Fixpoint declared (value : node) (parentName : string) {struct value}
  : list (string * bool) :=
  match value with
  | Null => []
  | Type_ name _ _ nested =>
      (name, false)
      :: match nested with
         | Some es => declaredEntries es name
         | None => []
         end
  | Enum name _ =>
      if truthy parentName
      then [(name, true); (parentName +:+ "_" +:+ name, true)]
      else [(name, true)]
  | Namespace (Some es) | Service _ _ (Some es) => declaredEntries es parentName
  | Namespace None | Service _ _ None => []
  end
with declaredEntries (es : entries) (parentName : string) {struct es}
  : list (string * bool) :=
  match es with
  | ENil => []
  | ECons _ value rest =>
      (declared value parentName ++ declaredEntries rest parentName)%list
  end.

(** The declarations below a root, which is not itself an entry. *)
Definition declaredBelow (root : node) (parentName : string)
  : list (string * bool) :=
  match nested root with
  | Some es => declaredEntries es parentName
  | None => []
  end.

Definition typeNames (l : list (string * bool)) : gset string :=
  list_to_set (List.map fst l).
Definition enumNames (l : list (string * bool)) : gset string :=
  list_to_set (List.map fst (List.filter snd l)).

(** Every message and enumeration of the tree has a name. *)
Fixpoint named (value : node) {struct value} : bool :=
  match value with
  | Null => true
  | Type_ name _ _ nested =>
      truthy name && match nested with Some es => namedEntries es | None => true end
  | Enum name _ => truthy name
  | Namespace (Some es) | Service _ _ (Some es) => namedEntries es
  | Namespace None | Service _ _ None => true
  end
with namedEntries (es : entries) {struct es} : bool :=
  match es with
  | ENil => true
  | ECons _ value rest => named value && namedEntries rest
  end.

Definition namedBelow (root : node) : bool :=
  match nested root with
  | Some es => namedEntries es
  | None => true
  end.

(** A call returned rather than threw. *)
Definition returns {A} (m : JS.result A) : bool :=
  match m with inr _ => true | inl _ => false end.

(** [p'] holds what [p] held and the names of [l]. *)
Definition grown (p p' : ProtoParser.t) (l : list (string * bool)) : Prop :=
  ProtoParser.knownTypes p' = ProtoParser.knownTypes p ∪ typeNames l
  /\ ProtoParser.knownEnumTypes p' = ProtoParser.knownEnumTypes p ∪ enumNames l.

End Declared.

(** Vocabulary for the emitted blocks. *)
Module EmitSpec.
Import Protobuf.
Local Open Scope string_scope.

(** Some underscore of the name is immediately followed by a lower-case
    letter: the pattern [toCamelCase] replaces. *)
Fixpoint has_match (name : string) : bool :=
  match name with
  | EmptyString => false
  | String c rest =>
      match rest with
      | String letter _ =>
          (Ascii.eqb c "_"%char && Str.isLower letter) || has_match rest
      | EmptyString => false
      end
  end.

(** The line of a field. *)
Definition fieldLine (field : Field.t) : string :=
  "  " +:+ ProtoParser.toCamelCase (Field.name field) +:+ " : "
  +:+ PlantUMLGenerator.displayTypeOf field (Field.type field).

(** What an entry of [fieldsArray] adds to the block of its message: the
    line of the field, and nothing for a null or reserved entry. *)
Definition entryLines (entry : option Field.t) : list string :=
  match entry with
  | Some field => if Field.reserved field then [] else [fieldLine field]
  | None => []
  end.

(** The notes of the oneof groups of a message, group by group. *)
Definition noteLines (messageName : string)
    (oneofs : option (list (string * OneOf.t))) : list string :=
  match oneofs with
  | Some groups =>
      flat_map (fun entry => PlantUMLGenerator.oneofNote messageName (snd entry))
               groups
  | None => []
  end.

(** [generateFromRoot] opens a package block for this root and package. *)
Definition opensPackageBlock (root : node) (packageName : option string) : bool :=
  match packageName with
  | Some name =>
      truthy name && Str.trimmed_truthy name
      && PlantUMLGenerator.shouldUsePackage
           (PlantUMLGenerator.analyzePackageStructure root name)
  | None => false
  end.

(** The text holds a dot. *)
Fixpoint hasDot (s : string) : bool :=
  match s with
  | EmptyString => false
  | String c rest => Ascii.eqb c "."%char || hasDot rest
  end.

(** The message of [extractFieldType] for a field without a type. *)
Definition noTypeMessage (field : Field.t) : string :=
  "Field " +:+ or_else (Field.name field) "unknown" +:+ " has no type defined".

(** The line of an enumeration value and of a method. *)
Definition valueLine (enumValue : string) : string := "  " +:+ enumValue.

Definition requestOf (method : Method.t) : string :=
  or_else (Method.requestType method) "Unknown".
Definition responseOf (method : Method.t) : string :=
  or_else (Method.responseType method) "Unknown".

Definition methodLine (method : Method.t) : string :=
  "  " +:+ Method.name method +:+ "(" +:+ requestOf method +:+ ") : "
  +:+ responseOf method.

Definition serviceEdge (serviceName target : string) : string :=
  serviceName +:+ " " +:+ CONFIG.UML.RELATIONSHIPS.ASSOCIATION +:+ " " +:+ target.

(** The methods of a service that [processServiceType] accepts. *)
Definition validMethod (method : option Method.t) : bool :=
  match method with
  | Some m => truthy (Method.name m)
  | None => false
  end.

Definition theMethods (methods : list (string * option Method.t))
  : list Method.t :=
  omap snd methods.

(** [value] is one of the entries [es]. *)
Fixpoint isEntry (value : node) (es : entries) : Prop :=
  match es with
  | ENil => False
  | ECons _ v rest => v = value \/ isEntry value rest
  end.

(** The tree protobufjs builds for one file: a chain of namespaces, one
    per segment of the package, with the declarations of the file in the
    last one. *)
Fixpoint packageChain (parts : list string) (declarations : entries) : entries :=
  match parts with
  | [] => declarations
  | part :: parts =>
      ECons part (Namespace (Some (packageChain parts declarations))) ENil
  end.

(** Declarations of a file: messages, enumerations, and services without
    entries of their own. *)
Fixpoint declarationsOnly (es : entries) : bool :=
  match es with
  | ENil => true
  | ECons _ value rest =>
      match value with
      | Type_ _ _ _ _ | Enum _ _ | Service _ _ None => declarationsOnly rest
      | _ => false
      end
  end.

End EmitSpec.

(* ===================================================================== *)
(** ** src/imageGenerator/imageGenerator.ts and type.ts *)
(* ===================================================================== *)

Module ImageGenerator.
Import JS.

Inductive ImageType := PNG | SVG | ASCII_ART.

(** The string value of a member of the enum. *)
Definition imageTypeValue (t : ImageType) : jsstring :=
  match t with
  | PNG => lit "png"
  | SVG => lit "svg"
  | ASCII_ART => lit "txt"
  end.

(** [config.image] *)
Record ImageConfig := mkConfig {
  plantumlEndpoint : jsstring;
  imageType : ImageType
}.

(** [imageGenerator(config).generateImageUrl(puml)]; an exception of
    [encode] leaves the function as it is. *)
Definition generateImageUrl (deflateRaw : list Z -> result (list Z))
    (config : ImageConfig) (puml : string) : result jsstring :=
  match PlantumlEncoder.encode deflateRaw puml with
  | inl error => inl error
  | inr result =>
      inr (plantumlEndpoint config ++ imageTypeValue (imageType config)
           ++ lit "/" ++ result)
  end.

End ImageGenerator.

(** Vocabulary for the statements about the two encoders. *)
Module UrlSpec.
Import JS.

(** What a caller of the tagged-result encoder sees: the console and the
    returned object or the exception, without the module variables. *)
Definition answer (o : PlantumlEncoderJs.outcome)
  : list string * result PlantumlEncoderJs.encoded :=
  match o with
  | (console, inr (res, _)) => (console, inr res)
  | (console, inl error) => (console, inl error)
  end.

(** Every code unit is below 128: the string holds ASCII characters
    only. *)
Definition isAscii (s : jsstring) : bool :=
  forallb (fun c => (0 <=? c) && (c <? 128)) s.

(** The value of a lower-case hexadecimal digit. *)
Definition spec_hexval (c : Z) : option Z :=
  if (48 <=? c) && (c <=? 57) then Some (c - 48)
  else if (97 <=? c) && (c <=? 102) then Some (c - 87)
  else None.

(** The two digits written for a byte read back as that byte. *)
Definition hex_ok (b : Z) : bool :=
  match PlantumlEncoderJs.padStart2 (PlantumlEncoderJs.toString16 b) with
  | [h; l] =>
      match spec_hexval h, spec_hexval l with
      | Some x, Some y => x * 16 + y =? b
      | _, _ => false
      end
  | _ => false
  end.

(** Reading a text of two hexadecimal digits per byte. *)
Fixpoint spec_unhex (hex : jsstring) : option (list Z) :=
  match hex with
  | [] => Some []
  | h :: l :: hex =>
      match spec_hexval h, spec_hexval l, spec_unhex hex with
      | Some a, Some b, Some bytes => Some (a * 16 + b :: bytes)
      | _, _, _ => None
      end
  | _ => None
  end.

(** The part of a URL after its last slash; [acc] is the part read since
    the last slash seen. *)
Fixpoint afterLastSlash (acc url : jsstring) : jsstring :=
  match url with
  | [] => acc
  | c :: url =>
      if c =? 47 then afterLastSlash [] url else afterLastSlash (acc ++ [c]) url
  end.

Definition lastSegment (url : jsstring) : jsstring := afterLastSlash [] url.

End UrlSpec.

(* ===================================================================== *)
(** ** src/index.js: class Proto2Diagram *)
(* ===================================================================== *)

Module Proto2Diagram.
Import JS Protobuf.
Local Open Scope string_scope.

(** The alternatives of [/\b(syntax|package|...)\b/]. *)
Definition protoKeywords : list string :=
  ["syntax"; "package"; "message"; "enum"; "service"; "rpc"; "import"; "option"].

(** [\w] *)
Definition isWordChar (c : ascii) : bool :=
  let n := nat_of_ascii c in
  ((48 <=? n) && (n <=? 57) || (65 <=? n) && (n <=? 90)
   || (97 <=? n) && (n <=? 122) || (n =? 95))%nat.

Definition startsWithWordChar (s : string) : bool :=
  match s with
  | EmptyString => false
  | String c _ => isWordChar c
  end.

(** The text after its first [n] characters. *)
Fixpoint drop (n : nat) (s : string) : string :=
  match n, s with
  | O, _ => s
  | S n, String _ s => drop n s
  | S _, EmptyString => EmptyString
  end.

(** One of the keywords stands at the head of [s] and a word boundary
    follows it. *)
Definition keywordHere (s : string) : bool :=
  existsb (fun keyword =>
             String.prefix keyword s
             && negb (startsWithWordChar (drop (String.length keyword) s)))
          protoKeywords.

(** [protoKeywords.test(content)]; [prevWord] tells whether the character
    before [s] is a word character, in which case no word boundary
    precedes [s]. *)
Fixpoint testKeywords (prevWord : bool) (s : string) : bool :=
  match s with
  | EmptyString => false
  | String c rest =>
      (negb prevWord && keywordHere s) || testKeywords (isWordChar c) rest
  end.

(** [/[<>{}]/.test(content)] *)
Fixpoint testSuspicious (s : string) : bool :=
  match s with
  | EmptyString => false
  | String c rest =>
      Ascii.eqb c "<"%char || Ascii.eqb c ">"%char
      || Ascii.eqb c "{"%char || Ascii.eqb c "}"%char
      || testSuspicious rest
  end.

(** [/{[^}]*}/.test(content)]: an opening brace with a closing brace
    somewhere after it; [opened] tells that an opening brace was seen. *)
Fixpoint testBraces (opened : bool) (s : string) : bool :=
  match s with
  | EmptyString => false
  | String c rest =>
      if opened && Ascii.eqb c "}"%char then true
      else testBraces (opened || Ascii.eqb c "{"%char) rest
  end.

Definition isValidProtoSyntax (content : string) : bool :=
  let hasProtoKeywords := testKeywords false content in
  let hasOnlyBraces := testSuspicious content && negb (testBraces false content) in
  hasProtoKeywords && negb hasOnlyBraces.

(** A JavaScript value handed to the facade, as far as the code looks at
    it: its [typeof], its truthiness, and its text when it is a string.
    [VNumber] and [VBigInt] tell whether the number is other than zero and
    NaN; [VObject] is any object that is not null, an array included. *)
Inductive value :=
| VUndefined
| VNull
| VBoolean (b : bool)
| VNumber (nonzero : bool)
| VBigInt (nonzero : bool)
| VString (s : string)
| VSymbol
| VFunction
| VObject.

(** [typeof v] *)
Definition typeof (v : value) : string :=
  match v with
  | VUndefined => "undefined"
  | VNull | VObject => "object"
  | VBoolean _ => "boolean"
  | VNumber _ => "number"
  | VBigInt _ => "bigint"
  | VString _ => "string"
  | VSymbol => "symbol"
  | VFunction => "function"
  end.

(** The truthiness of a value. *)
Definition toBoolean (v : value) : bool :=
  match v with
  | VUndefined | VNull => false
  | VBoolean b => b
  | VNumber nonzero | VBigInt nonzero => nonzero
  | VString s => truthy s
  | VSymbol | VFunction | VObject => true
  end.

(** [a || b] *)
Definition or_value (a b : value) : value := if toBoolean a then a else b.

Definition validateProtoContent (protoContent : value) : result bool :=
  match protoContent with
  | VNull | VUndefined => inl "Proto content cannot be null or undefined"
  | VString content =>
      let trimmedContent := Str.trim content in
      if negb (truthy trimmedContent)
      then inl "Proto content cannot be empty or contain only whitespace"
      else if negb (isValidProtoSyntax trimmedContent)
      then inl "Proto content does not appear to contain valid protobuf syntax"
      else inr true
  | other =>
      inl ("Proto content must be a string, received " +:+ typeof other)
  end.

(** The object returned by [generateDiagramUrl]. *)
Record diagram := Diagram {
  imageUrl : jsstring;
  plantumlCode : string;
  success : bool
}.

(** [this.options.plantumlEndpoint] after the constructor, for options
    with ([Some]) or without ([None]) a property [plantumlEndpoint] of
    their own: the spread of the options comes last, so a property given
    to the constructor is kept as it is, whatever its value, and the
    default only fills in for a missing one. *)
Definition constructedEndpoint (plantumlEndpoint : option value) : value :=
  match plantumlEndpoint with
  | Some endpoint => endpoint
  | None => VString CONFIG.PLANTUML_ENDPOINT
  end.

(** The [options] argument of [generateDiagramUrl]: missing, so that the
    default [{}] applies; null; an object, given by its property
    [plantumlEndpoint], which is [VUndefined] when the object has none; or
    a value whose [typeof] is not [object]. *)
Inductive options :=
| NoOptions
| NullOptions
| Options (plantumlEndpoint : value)
| NotAnObject.

(** [validatedOptions.plantumlEndpoint], where [validatedOptions] is
    [options || {}]. *)
Definition plantumlEndpointOf (o : options) : value :=
  match o with
  | Options plantumlEndpoint => plantumlEndpoint
  | NoOptions | NullOptions | NotAnObject => VUndefined
  end.

(** The endpoint when it passes the test
    [!endpoint || typeof endpoint !== "string"]. *)
Definition endpointText (endpoint : value) : option string :=
  match endpoint with
  | VString url => if truthy url then Some url else None
  | _ => None
  end.

Section WithCollaborators.
(** [protobuf.parse(content)], giving the root and the package, an
    exception being given by its message; and the environment of the
    encoder. *)
Variable parse : string -> result (node * option string).
Variable env : PlantumlEncoderJs.env.

(** [ProtoParser.parseProtoString]: the sets are cleared before the types
    are collected. *)
Definition parseProtoString (content : value)
  : result (node * ProtoParser.t * option string) :=
  match content with
  | VString content =>
      if negb (truthy content) || negb (truthy (Str.trim content))
      then inl "Proto content must be a non-empty string"
      else
        match parse content with
        | inl message => inl ("Failed to parse protobuf content: " +:+ message)
        | inr (root, package) =>
            match root with
            | Null => inl "Parsed protobuf has no root namespace"
            | _ =>
                match ProtoParser.collectTypes root EmptyString ProtoParser.new with
                | inl message =>
                    inl ("Failed to collect protobuf types: " +:+ message)
                | inr parser =>
                    inr (root, parser,
                         match package with
                         | Some name => if truthy name then Some name else None
                         | None => None
                         end)
                end
            end
        end
  | _ => inl "Proto content must be a non-empty string"
  end.

(** The [try] block of [generatePlantUMLCode]. *)
Definition plantUMLCodeOf (protoContent : value) : result string :=
  match validateProtoContent protoContent with
  | inl message => inl message
  | inr _ =>
      match parseProtoString protoContent with
      | inl message => inl message
      | inr (root, parser, packageName) =>
          PlantUMLGenerator.generateFromRoot parser root packageName
      end
  end.

Definition generatePlantUMLCode (protoContent : value) : result string :=
  ProtoParser.wrap "Failed to generate PlantUML code: "
                   (plantUMLCodeOf protoContent).

(** [generateDiagramUrl(protoContent, options)] on an instance whose
    option [plantumlEndpoint] is [instanceEndpoint].  The test of the
    options comes before the [try] block, so its error leaves the method
    without the context the [catch] adds.  An endpoint is a URL, taken to
    be ASCII.  The console lines of the encoder come with the outcome. *)
Definition generateDiagramUrl (instanceEndpoint : value)
    (protoContent : value) (options : options)
    (v : PlantumlEncoderJs.vars) : list string * result diagram :=
  match options with
  | NotAnObject => ([], inl "Options must be an object or null")
  | _ =>
      match generatePlantUMLCode protoContent with
      | inl message => ([], inl ("Failed to generate diagram: " +:+ message))
      | inr plantumlCode =>
          if negb (truthy plantumlCode)
          then ([], inl ("Failed to generate diagram: "
                         +:+ "Failed to generate valid PlantUML code"))
          else
            let endpoint :=
              or_value (plantumlEndpointOf options) instanceEndpoint in
            match endpointText endpoint with
            | None =>
                ([], inl ("Failed to generate diagram: "
                          +:+ "PlantUML endpoint must be a valid URL string"))
            | Some endpoint =>
                match PlantumlEncoderJs.generatePlantUMLImageUrl
                        env plantumlCode (lit endpoint) v with
                | (console, inl message) =>
                    (console, inl ("Failed to generate diagram: " +:+ message))
                | (console, inr ([], _)) =>
                    (console, inl ("Failed to generate diagram: "
                                   +:+ "Failed to generate valid image URL"))
                | (console, inr (url, _)) =>
                    (console, inr (Diagram url plantumlCode true))
                end
            end
      end
  end.

End WithCollaborators.

End Proto2Diagram.

(** Vocabulary for the statements about [Proto2Diagram]. *)
Module FacadeSpec.
Local Open Scope string_scope.

(** [part] occurs in [s]. *)
Definition occursIn (part s : string) : Prop :=
  exists before after, s = before +:+ part +:+ after.

End FacadeSpec.

(* ===================================================================== *)
(** * Properties *)
(* ===================================================================== *)

(** ** The encoder *)

Section EncoderFacts.
Import JS PlantumlEncoder EncoderSpec.

Lemma int32_small z : 0 <= z < 2 ^ 31 -> int32 z = z.
Proof.
  intros H. unfold int32.
  rewrite Z.mod_small; lia.
Qed.

Lemma and_63_range z : 0 <= JS.and z 63 < 64.
Proof.
  unfold JS.and. rewrite (int32_small 63) by lia.
  change 63 with (Z.ones 6). rewrite Z.land_ones by lia.
  apply Z.mod_pos_bound. lia.
Qed.

Lemma and_63_id v : 0 <= v < 64 -> JS.and v 63 = v.
Proof.
  intros H. unfold JS.and.
  rewrite (int32_small 63), (int32_small v) by lia.
  change 63 with (Z.ones 6). rewrite Z.land_ones by lia.
  apply Z.mod_small. lia.
Qed.

(** [encode6bit] on the 64 six-bit values, checked one by one. *)
Lemma encode6bit_table :
  forallb (fun n => let v := Z.of_nat n in
                    match encode6bit v with
                    | [c] => (c =? spec_alphabet v)
                             && (c =? nth n (lit alphabet) 0)
                    | _ => false
                    end) (seq 0 64) = true.
Proof. vm_compute. reflexivity. Qed.

Lemma encode6bit_spec v :
  0 <= v < 64 ->
  encode6bit v = [spec_alphabet v] /\ inAlphabet (spec_alphabet v).
Proof.
  intros Hv.
  pose proof encode6bit_table as T.
  rewrite forallb_forall in T.
  specialize (T (Z.to_nat v)).
  assert (Hin : In (Z.to_nat v) (seq 0 64)) by (apply in_seq; lia).
  specialize (T Hin). cbv zeta in T.
  rewrite Z2Nat.id in T by lia.
  destruct (encode6bit v) as [|c [|? ?]]; try discriminate.
  apply andb_prop in T as [T1 T2].
  apply Z.eqb_eq in T1, T2. subst c.
  split; [reflexivity|].
  unfold inAlphabet. rewrite T2. apply nth_In.
  change (length (lit alphabet)) with 64%nat. lia.
Qed.

Lemma append3bytes_quad b1 b2 b3 s :
  fst (append3bytes b1 b2 b3 s) = quad b1 b2 b3
  /\ i (snd (append3bytes b1 b2 b3 s)) = i s.
Proof.
  unfold append3bytes, quad. cbn. rewrite <- !app_assoc. split; reflexivity.
Qed.

End EncoderFacts.

Section EncoderLoop.
Import JS PlantumlEncoder EncoderSpec.

Lemma charCodeAt_app pre rest j :
  charCodeAt (pre ++ rest) (length pre + j) = nth j rest 0.
Proof.
  unfold charCodeAt. rewrite app_nth2 by lia. f_equal. lia.
Qed.

Lemma charCodeAt_app0 pre rest :
  charCodeAt (pre ++ rest) (length pre) = nth 0 rest 0.
Proof.
  rewrite <- (charCodeAt_app pre rest 0). f_equal. lia.
Qed.

Lemma encode64_body_spec pre rest s :
  i s = length pre -> rest <> [] ->
  r (encode64_body (pre ++ rest) s)
  = r s ++ quads (firstn 3 rest)
  /\ i (encode64_body (pre ++ rest) s) = (length pre + 3)%nat.
Proof.
  intros Hi Hne. unfold encode64_body.
  rewrite Hi, length_app, ?charCodeAt_app, ?charCodeAt_app0.
  destruct rest as [|b1 [|b2 [|b3 rest]]]; [congruence | | | ]; cbn [length nth].
  - destruct (Nat.eqb_spec (length pre + 2) (length pre + 1)); [lia|].
    destruct (Nat.eqb_spec (length pre + 1) (length pre + 1)); [|lia].
    destruct (append3bytes_quad b1 0 0 s) as [Q I].
    destruct (append3bytes b1 0 0 s) as [rv s'].
    cbn in Q, I |- *. subst rv. split; [reflexivity | lia].
  - destruct (Nat.eqb_spec (length pre + 2) (length pre + 2)); [|lia].
    destruct (append3bytes_quad b1 b2 0 s) as [Q I].
    destruct (append3bytes b1 b2 0 s) as [rv s'].
    cbn in Q, I |- *. subst rv. split; [reflexivity | lia].
  - destruct (Nat.eqb_spec (length pre + 2) (length pre + S (S (S (length rest))))); [lia|].
    destruct (Nat.eqb_spec (length pre + 1) (length pre + S (S (S (length rest))))); [lia|].
    destruct (append3bytes_quad b1 b2 b3 s) as [Q I].
    destruct (append3bytes b1 b2 b3 s) as [rv s'].
    cbn in Q, I |- *. subst rv. rewrite app_nil_r. split; [reflexivity | lia].
Qed.

Lemma quads_step rest :
  rest <> [] -> quads rest = quads (firstn 3 rest) ++ quads (skipn 3 rest).
Proof.
  destruct rest as [|b1 [|b2 [|b3 rest]]]; intros H; cbn [firstn skipn quads];
    rewrite ?app_nil_r; try reflexivity; congruence.
Qed.

Lemma encode64_loop_spec fuel : forall data pre rest s,
  data = pre ++ rest ->
  i s = length pre \/ (rest = [] /\ (length pre <= i s)%nat) ->
  (length rest <= fuel)%nat ->
  r (encode64_loop fuel data s) = r s ++ quads rest.
Proof.
  induction fuel as [|fuel IH]; intros data pre rest s Hd Hi Hf.
  - destruct rest; [|cbn in Hf; lia]. cbn. now rewrite app_nil_r.
  - cbn [encode64_loop]. subst data. rewrite length_app.
    destruct rest as [|b rest'].
    + cbn [length]. destruct (Nat.ltb_spec (i s) (length pre + 0)); [lia|].
      cbn. now rewrite app_nil_r.
    + destruct Hi as [Hi|[? _]]; [|discriminate].
      remember (b :: rest') as rest eqn:Er.
      assert (Hne : rest <> []) by (rewrite Er; congruence).
      assert (Hlen : (0 < length rest)%nat) by (rewrite Er; cbn; lia).
      destruct (Nat.ltb_spec (i s) (length pre + length rest)); [|lia].
      destruct (encode64_body_spec pre rest s Hi Hne) as [Hr Hi'].
      rewrite (IH (pre ++ rest) (pre ++ firstn 3 rest) (skipn 3 rest)).
      * rewrite Hr, <- app_assoc. f_equal. symmetry. now apply quads_step.
      * rewrite <- app_assoc, firstn_skipn. reflexivity.
      * rewrite Hi', length_app, length_firstn.
        destruct rest as [|? [|? [|? ?]]]; cbn in *;
          [lia | right; split; [reflexivity|lia] ..| left; lia].
      * rewrite length_skipn. lia.
Qed.

(** [encode64] returns the groups of its input, whatever the shared
    variables held before the call. *)
Lemma encode64_quads data s : fst (encode64 data s) = quads data.
Proof.
  unfold encode64. cbn [fst].
  rewrite (encode64_loop_spec (length data) data [] data);
    [reflexivity | reflexivity | left; reflexivity | lia].
Qed.

End EncoderLoop.

Section EncoderBytes.
Import JS PlantumlEncoder EncoderSpec.

(** A decidable property checked on every value below a bound. *)
Lemma all_below (n : nat) (P : Z -> bool) :
  forallb (fun a => P (Z.of_nat a)) (seq 0 n) = true ->
  forall a, 0 <= a < Z.of_nat n -> P a = true.
Proof.
  intros H a Ha.
  rewrite forallb_forall in H.
  specialize (H (Z.to_nat a)). rewrite in_seq in H.
  assert (Ta : (0 <= Z.to_nat a < 0 + n)%nat) by lia.
  specialize (H Ta). now rewrite Z2Nat.id in H by lia.
Qed.

Lemma byte_ops_table :
  forallb (fun a => byte_ops_ok (Z.of_nat a)) (seq 0 256) = true.
Proof. vm_compute. reflexivity. Qed.

Lemma or_shl_table :
  forallb (fun x => forallb (fun y => or_shl_ok (Z.of_nat x) (Z.of_nat y))
                            (seq 0 16)) (seq 0 16) = true.
Proof. vm_compute. reflexivity. Qed.

Lemma byte_ops a :
  isByte a ->
  shr a 2 = a / 4 /\ JS.and a 3 = a mod 4 /\ shr a 4 = a / 16
  /\ JS.and a 15 = a mod 16 /\ shr a 6 = a / 64 /\ JS.and a 63 = a mod 64.
Proof.
  intros Ha.
  pose proof (all_below 256 byte_ops_ok byte_ops_table a Ha) as H.
  unfold byte_ops_ok in H.
  repeat (apply andb_prop in H as [H ?]).
  repeat match goal with E : (_ =? _) = true |- _ => apply Z.eqb_eq in E end.
  auto 10.
Qed.

Lemma or_shl x y :
  0 <= x < 16 -> 0 <= y < 16 ->
  (x < 4 -> JS.or (shl x 4) y = x * 16 + y)
  /\ (y < 4 -> JS.or (shl x 2) y = x * 4 + y).
Proof.
  intros Hx Hy.
  pose proof (all_below 16
                (fun x => forallb (fun y => or_shl_ok x (Z.of_nat y)) (seq 0 16))
                or_shl_table x Hx) as H. cbv beta in H.
  pose proof (all_below 16 (or_shl_ok x) H y Hy) as H'.
  unfold or_shl_ok in H'. apply andb_prop in H' as [H1 H2].
  split; intros Hlt.
  - destruct (Z.ltb_spec x 4); [|lia]. now apply Z.eqb_eq.
  - destruct (Z.ltb_spec y 4); [|lia]. now apply Z.eqb_eq.
Qed.

Lemma quad_spec_group b1 b2 b3 :
  isByte b1 -> isByte b2 -> isByte b3 -> quad b1 b2 b3 = spec_group b1 b2 b3.
Proof.
  intros H1 H2 H3. unfold quad, spec_group.
  destruct (byte_ops b1 H1) as (A1 & A2 & _).
  destruct (byte_ops b2 H2) as (_ & _ & B3 & B4 & _).
  destruct (byte_ops b3 H3) as (_ & _ & _ & _ & C5 & C6).
  rewrite A1, A2, B3, B4, C5, C6.
  unfold isByte in *.
  assert (0 <= b1 / 4 < 64) by (split; [apply Z.div_pos | apply Z.div_lt_upper_bound]; lia).
  assert (0 <= b2 / 16 < 16) by (split; [apply Z.div_pos | apply Z.div_lt_upper_bound]; lia).
  assert (0 <= b3 / 64 < 4) by (split; [apply Z.div_pos | apply Z.div_lt_upper_bound]; lia).
  pose proof (Z.mod_pos_bound b1 4 ltac:(lia)).
  pose proof (Z.mod_pos_bound b2 16 ltac:(lia)).
  pose proof (Z.mod_pos_bound b3 64 ltac:(lia)).
  rewrite (proj1 (or_shl (b1 mod 4) (b2 / 16) ltac:(lia) ltac:(lia)) ltac:(lia)).
  rewrite (proj2 (or_shl (b2 mod 16) (b3 / 64) ltac:(lia) ltac:(lia)) ltac:(lia)).
  rewrite !and_63_id by lia.
  destruct (encode6bit_spec (b1 / 4)) as [-> _]; [lia|].
  destruct (encode6bit_spec (b1 mod 4 * 16 + b2 / 16)) as [-> _]; [lia|].
  destruct (encode6bit_spec (b2 mod 16 * 4 + b3 / 64)) as [-> _]; [lia|].
  destruct (encode6bit_spec (b3 mod 64)) as [-> _]; [lia|].
  reflexivity.
Qed.

Lemma isByte_0 : isByte 0.
Proof. unfold isByte. lia. Qed.

Lemma quads_spec_encode64 : forall data,
  Forall isByte data -> quads data = spec_encode64 data.
Proof.
  fix IH 1. intros [|b1 [|b2 [|b3 rest]]] H; cbn [quads spec_encode64].
  - reflexivity.
  - inversion H; subst. apply quad_spec_group; auto using isByte_0.
  - inversion H as [|? ? ? H']; subst. inversion H'; subst.
    apply quad_spec_group; auto using isByte_0.
  - inversion H as [|? ? ? H']; subst. inversion H' as [|? ? ? H'']; subst.
    inversion H''; subst.
    rewrite quad_spec_group by assumption. f_equal. now apply IH.
Qed.

Lemma quad_length b1 b2 b3 : length (quad b1 b2 b3) = 4%nat.
Proof.
  unfold quad.
  destruct (encode6bit_spec _ (and_63_range (shr b1 2))) as [-> _].
  destruct (encode6bit_spec _ (and_63_range (JS.or (shl (JS.and b1 3) 4) (shr b2 4)))) as [-> _].
  destruct (encode6bit_spec _ (and_63_range (JS.or (shl (JS.and b2 15) 2) (shr b3 6)))) as [-> _].
  destruct (encode6bit_spec _ (and_63_range (JS.and b3 63))) as [-> _].
  cbn [app length]. reflexivity.
Qed.

Lemma quad_alphabet b1 b2 b3 : Forall inAlphabet (quad b1 b2 b3).
Proof.
  unfold quad.
  destruct (encode6bit_spec _ (and_63_range (shr b1 2))) as [-> A1].
  destruct (encode6bit_spec _ (and_63_range (JS.or (shl (JS.and b1 3) 4) (shr b2 4)))) as [-> A2].
  destruct (encode6bit_spec _ (and_63_range (JS.or (shl (JS.and b2 15) 2) (shr b3 6)))) as [-> A3].
  destruct (encode6bit_spec _ (and_63_range (JS.and b3 63))) as [-> A4].
  cbn [app]. repeat (constructor; [assumption|]). constructor.
Qed.

Lemma quads_alphabet : forall data, Forall inAlphabet (quads data).
Proof.
  fix IH 1. intros [|b1 [|b2 [|b3 rest]]]; cbn [quads].
  - constructor.
  - apply quad_alphabet.
  - apply quad_alphabet.
  - apply Forall_app. split; [apply quad_alphabet | apply IH].
Qed.

Lemma quads_length : forall data,
  length (quads data) = (4 * ((length data + 2) / 3))%nat.
Proof.
  fix IH 1. intros [|b1 [|b2 [|b3 rest]]]; cbn [quads].
  - reflexivity.
  - apply quad_length.
  - apply quad_length.
  - rewrite length_app, quad_length, IH. cbn [length].
    replace (S (S (S (length rest))) + 2)%nat with (1 * 3 + (length rest + 2))%nat by lia.
    rewrite Nat.div_add_l by lia. lia.
Qed.

End EncoderBytes.

Section DecoderFacts.
Import JS PlantumlEncoder EncoderSpec SpecDecoder.

Lemma decode6bit_table :
  forallb (fun v => match spec_decode6bit (spec_alphabet (Z.of_nat v)) with
                    | Some v' => v' =? Z.of_nat v
                    | None => false
                    end) (seq 0 64) = true.
Proof. vm_compute. reflexivity. Qed.

Lemma decode6bit_alphabet v :
  0 <= v < 64 -> spec_decode6bit (spec_alphabet v) = Some v.
Proof.
  intros Hv.
  pose proof (all_below 64
    (fun v => match spec_decode6bit (spec_alphabet v) with
              | Some v' => v' =? v
              | None => false
              end) decode6bit_table v Hv) as H.
  cbv beta in H. destruct (spec_decode6bit (spec_alphabet v)); [|discriminate].
  apply Z.eqb_eq in H. now subst.
Qed.

Lemma decode_group b1 b2 b3 :
  isByte b1 -> isByte b2 -> isByte b3 ->
  spec_decode3bytes (b1 / 4) (b1 mod 4 * 16 + b2 / 16)
                    (b2 mod 16 * 4 + b3 / 64) (b3 mod 64) = [b1; b2; b3].
Proof.
  unfold isByte, spec_decode3bytes. intros H1 H2 H3.
  repeat f_equal; Z.div_mod_to_equations; lia.
Qed.

Lemma decode64_group b1 b2 b3 token :
  isByte b1 -> isByte b2 -> isByte b3 ->
  spec_decode64 (spec_group b1 b2 b3 ++ token)
  = match spec_decode64 token with
    | Some bytes => Some ([b1; b2; b3] ++ bytes)
    | None => None
    end.
Proof.
  intros H1 H2 H3. unfold spec_group. cbn [app spec_decode64].
  unfold isByte in *.
  rewrite !decode6bit_alphabet by (Z.div_mod_to_equations; lia).
  rewrite decode_group by assumption. reflexivity.
Qed.

(** Decoding gives back the bytes followed by the zero bytes that
    completed the last group. *)
Lemma decode64_encode64 : forall data,
  Forall isByte data ->
  spec_decode64 (spec_encode64 data)
  = Some (data ++ repeat 0 (padding (length data))).
Proof.
  fix IH 1. intros [|b1 [|b2 [|b3 rest]]] H; cbn [spec_encode64].
  - reflexivity.
  - inversion H; subst.
    rewrite <- (app_nil_r (spec_group b1 0 0)).
    rewrite decode64_group by auto using isByte_0. reflexivity.
  - inversion H as [|? ? ? H']; subst. inversion H'; subst.
    rewrite <- (app_nil_r (spec_group b1 b2 0)).
    rewrite decode64_group by auto using isByte_0. reflexivity.
  - inversion H as [|? ? ? H']; subst. inversion H' as [|? ? ? H'']; subst.
    inversion H''; subst.
    rewrite decode64_group by assumption.
    rewrite IH by assumption. cbn [app length]. do 4 f_equal.
    unfold padding.
    replace (S (S (S (length rest)))) with (length rest + 1 * 3)%nat by lia.
    now rewrite Nat.Div0.mod_add.
Qed.

Lemma padding_le n : (padding n <= 2)%nat.
Proof.
  unfold padding. pose proof (Nat.mod_upper_bound (3 - n mod 3) 3). lia.
Qed.

Lemma textEncode_bytes text : Forall isByte (textEncode text).
Proof.
  unfold textEncode. apply Forall_map. apply Forall_forall. intros a _.
  unfold isByte, code. pose proof (N_ascii_bounded a). lia.
Qed.

Lemma textDecode_textEncode text : spec_textDecode (textEncode text) = text.
Proof.
  unfold spec_textDecode, textEncode. rewrite map_map.
  rewrite <- (string_of_list_ascii_of_string text) at 2. f_equal.
  rewrite <- (map_id (list_ascii_of_string text)) at 2.
  apply map_ext. intros a. unfold code.
  now rewrite N2Z.id, ascii_N_embedding.
Qed.

Lemma fromCharCode_bytes bytes :
  Forall isByte bytes ->
  concat (map (fun byte => [fromCharCode byte]) bytes) = bytes.
Proof.
  induction 1 as [|b bytes Hb _ IH]; [reflexivity|].
  cbn. rewrite IH. f_equal. unfold fromCharCode, isByte in *.
  apply Z.mod_small. lia.
Qed.

End DecoderFacts.

Section StoredDeflateFacts.
Import JS EncoderSpec StoredDeflate.

Lemma stored_bytes input compressed :
  Forall isByte input -> deflateRaw input = inr compressed ->
  Forall isByte compressed.
Proof.
  unfold deflateRaw. intros Hin.
  destruct (Z.ltb_spec (Z.of_nat (length input)) 65536); [|discriminate].
  intros [= <-]. unfold isByte.
  do 5 (constructor; [Z.div_mod_to_equations; lia|]).
  exact Hin.
Qed.

Lemma stored_round_trip input compressed k :
  deflateRaw input = inr compressed ->
  inflateRaw (compressed ++ repeat 0 k) = Some input.
Proof.
  unfold deflateRaw.
  destruct (Z.ltb_spec (Z.of_nat (length input)) 65536) as [Hlt|]; [|discriminate].
  intros [= <-]. cbn [app inflateRaw].
  set (len := Z.of_nat (length input)) in *.
  assert (E : len mod 256 + 256 * (len / 256) = len)
    by (Z.div_mod_to_equations; lia).
  rewrite E, !Z.eqb_refl. cbn [andb].
  rewrite length_app.
  destruct (Z.leb_spec len (Z.of_nat (length input + length (repeat 0 k)))); [|lia].
  f_equal. unfold len. rewrite Nat2Z.id.
  now rewrite firstn_app, Nat.sub_diag, firstn_all, firstn_O, app_nil_r.
Qed.

End StoredDeflateFacts.

(** ** Claims about the encoder *)

Section EncoderClaims.
Import JS PlantumlEncoder EncoderSpec SpecDecoder.

(** C8. For every compressed byte stream, whatever the shared variables
    hold on entry, [encode64] consumes the stream three bytes at a time,
    the last group completed with zero bytes, and each group gives exactly
    four characters: the first six bits of byte 1; the last two bits of
    byte 1 with the first four bits of byte 2; the last four bits of byte 2
    with the first two bits of byte 3; the last six bits of byte 3; each
    six-bit value going through the alphabet 0-9, A-Z, a-z, [-], [_]
    ([spec_encode64], [spec_group], [spec_alphabet]).  The output has four
    characters per started group of three bytes. *)
Theorem encode64_three_bytes_four_chars (data : list Z) (s : vars) :
  Forall isByte data ->
  fst (encode64 data s) = spec_encode64 data
  /\ length (fst (encode64 data s)) = (4 * ((length data + 2) / 3))%nat.
Proof.
  intros Hb. rewrite encode64_quads. split.
  - now apply quads_spec_encode64.
  - apply quads_length.
Qed.

Lemma encode64_three_bytes_four_chars_witness :
  Forall isByte [77; 97; 110; 255]
  /\ fst (encode64 [77; 97; 110; 255] init) = lit "JM5k_m00".
Proof.
  assert (H : Forall isByte [77; 97; 110; 255])
    by (repeat (constructor; [unfold isByte; lia|]); constructor).
  split; [exact H|].
  rewrite (proj1 (encode64_three_bytes_four_chars [77; 97; 110; 255] init H)).
  vm_compute. reflexivity.
Defined.

(** C10. Every character of the token is one of the 64 characters of the
    URL-safe alphabet, and none is the question mark: [append3bytes] masks
    each value with 0x3f before [encode6bit] sees it.  This holds for
    [encode64] on any sequence of code units, and so for every token
    [encode] returns. *)
Theorem encode_never_question_mark (deflateRaw : list Z -> result (list Z))
    (text : string) (data : jsstring) (s : vars) (b : Z) :
  Forall (fun c => inAlphabet c /\ c <> code "?") (encode6bit (JS.and b 63))
  /\ Forall (fun c => inAlphabet c /\ c <> code "?") (fst (encode64 data s))
  /\ match encode deflateRaw text with
     | inr token => Forall (fun c => inAlphabet c /\ c <> code "?") token
     | inl _ => True
     end.
Proof.
  assert (Q : forall c, inAlphabet c -> inAlphabet c /\ c <> code "?").
  { intros c Hc. split; [exact Hc|]. intros ->. revert Hc.
    unfold inAlphabet. vm_compute. intuition discriminate. }
  assert (A : forall d v,
             Forall (fun c => inAlphabet c /\ c <> code "?") (fst (encode64 d v))).
  { intros d v. rewrite encode64_quads.
    eapply Forall_impl; [apply quads_alphabet | exact Q]. }
  split.
  { destruct (encode6bit_spec _ (and_63_range b)) as [-> Hb].
    constructor; [apply Q, Hb | constructor]. }
  split; [apply A|].
  unfold encode, compressAndEncode.
  destruct (deflateRaw (textEncode text)); [exact I | apply A].
Qed.

(** C4. With a compressor whose output is a byte stream and a decompressor
    that recovers the input from that stream even when up to two zero
    bytes follow it (a DEFLATE stream marks its own end), every text the
    compressor accepts is encoded to a token from which the inverse of the
    64-character transform followed by decompression gives back the text
    exactly. *)
Theorem encode_round_trip
    (deflateRaw : list Z -> result (list Z))
    (inflateRaw : list Z -> option (list Z))
    (text : string) (compressed : list Z) :
  (forall input out, Forall isByte input -> deflateRaw input = inr out ->
                     Forall isByte out) ->
  (forall input out k, Forall isByte input -> deflateRaw input = inr out ->
                       (k <= 2)%nat ->
                       inflateRaw (out ++ repeat 0 k) = Some input) ->
  deflateRaw (textEncode text) = inr compressed ->
  exists token,
    encode deflateRaw text = inr token
    /\ spec_decode inflateRaw token = Some text.
Proof.
  intros Hbytes Hinflate Hc.
  pose proof (Hbytes _ _ (textEncode_bytes text) Hc) as Hb.
  unfold encode, compressAndEncode. rewrite Hc.
  eexists. split; [reflexivity|].
  rewrite encode64_quads, fromCharCode_bytes by assumption.
  rewrite quads_spec_encode64 by assumption.
  unfold spec_decode. rewrite decode64_encode64 by assumption.
  rewrite (Hinflate _ _ _ (textEncode_bytes text) Hc (padding_le _)).
  now rewrite textDecode_textEncode.
Qed.

Lemma encode_round_trip_witness :
  exists token,
    encode StoredDeflate.deflateRaw "@startuml" = inr token
    /\ spec_decode StoredDeflate.inflateRaw token = Some "@startuml"%string.
Proof.
  apply (encode_round_trip StoredDeflate.deflateRaw StoredDeflate.inflateRaw
           "@startuml"
           ([1; 9; 0; 246; 255] ++ textEncode "@startuml")).
  - intros input out Hin Hout. exact (stored_bytes input out Hin Hout).
  - intros input out k _ Hout _. exact (stored_round_trip input out k Hout).
  - vm_compute. reflexivity.
Defined.

(** The empty text also comes back. *)
Example encode_round_trip_empty :
  match encode StoredDeflate.deflateRaw EmptyString with
  | inr token => spec_decode StoredDeflate.inflateRaw token = Some EmptyString
  | inl _ => False
  end.
Proof. vm_compute. reflexivity. Qed.

(** C2, as stated, fails on the tagged-result encoder: when pako throws
    and no js-deflate function is in scope, the call does not fail; it
    logs and returns the hex encoding. *)
Lemma compression_failure_not_fatal_in_js_encoder :
  StoredDeflate.failing (PlantumlEncoderJs.utf8String "@startuml")
  = inl "Error: out of memory"%string
  /\ PlantumlEncoderJs.compressAndEncode
       (PlantumlEncoderJs.Env (Some StoredDeflate.failing) None None)
       "@startuml" init
     = ([ "Pako compression failed: Error: out of memory"%string;
          "No compression library available - using HEX encoding fallback"%string ],
        inr (PlantumlEncoderJs.Encoded (lit "407374617274756d6c") "hex", init)).
Proof. split; vm_compute; reflexivity. Qed.

Lemma convertToHex_length : forall bytes,
  Forall isByte bytes ->
  length (PlantumlEncoderJs.convertToHex bytes) = (2 * length bytes)%nat.
Proof.
  induction 1 as [|b bytes Hb _ IH]; [reflexivity|].
  cbn [PlantumlEncoderJs.convertToHex]. rewrite length_app, IH.
  unfold PlantumlEncoderJs.padStart2, PlantumlEncoderJs.toString16, isByte in *.
  destruct (Z.ltb_spec b 16); [cbn; lia|].
  destruct (Z.ltb_spec b 256); [cbn; lia|lia].
Qed.

(** C2, amended.  When the compression step throws, [encode] of
    plantumlEncoder.ts fails with the error [Pako compression failed: ...]
    that wraps the cause, and returns no token.  [compressAndEncode] of
    plantumlEncoder.js, given the same throwing pako and no js-deflate
    function, logs the failure and returns the whole text in hexadecimal,
    two digits per byte, tagged [hex]. *)
Theorem compression_failure_wrapped_or_hex
    (deflateRaw : list Z -> result (list Z)) (text : string) (error : exn)
    (v : vars) :
  deflateRaw (textEncode text) = inl error ->
  encode deflateRaw text
  = inl ("Pako compression failed: " +:+ dquote +:+ " " +:+ error)%string
  /\ PlantumlEncoderJs.compressAndEncode
       (PlantumlEncoderJs.Env (Some deflateRaw) None None) text v
     = ([ ("Pako compression failed: " +:+ error)%string;
          "No compression library available - using HEX encoding fallback"%string ],
        inr (PlantumlEncoderJs.Encoded
               (PlantumlEncoderJs.convertToHex (textEncode text)) "hex", v))
  /\ length (PlantumlEncoderJs.convertToHex (textEncode text))
     = (2 * String.length text)%nat.
Proof.
  intros H. split; [|split].
  - unfold encode, compressAndEncode. now rewrite H.
  - unfold PlantumlEncoderJs.compressAndEncode, PlantumlEncoderJs.utf8String.
    cbn. now rewrite H.
  - rewrite convertToHex_length; [|apply textEncode_bytes].
    unfold textEncode. rewrite length_map. f_equal. clear H.
    induction text as [|a text IH]; [reflexivity|]. cbn. now rewrite IH.
Qed.

Lemma compression_failure_wrapped_or_hex_witness :
  encode StoredDeflate.failing "@startuml"
  = inl ("Pako compression failed: " +:+ dquote +:+ " Error: out of memory")%string.
Proof.
  exact (proj1 (compression_failure_wrapped_or_hex StoredDeflate.failing
                  "@startuml" "Error: out of memory" init eq_refl)).
Defined.

End EncoderClaims.

(** ** Claims about the resolver *)

Section ResolverClaims.
Import JS Protobuf ProtoParser ResolverSpec.
Local Open Scope string_scope.

(** C1, the code at the inputs of the claim.  [getRelationshipType]
    returns the containment kind [--*] for a known enumeration and the
    reference kind [--o] for a message and for an unknown name, the
    reverse of what its comments, the tests of protoParser.test.js and the
    claim say; only a value that is not a non-empty string gets the
    containment kind as the fallback.  The repeated field [addresses] of
    type [Address] in [User] therefore gives the single edge
    [User --o "0..*" Address]. *)
Theorem getRelationshipType_kinds_swapped :
  let p := mk {[ "User"; "Status"; "Priority" ]} {[ "Status"; "Priority" ]} in
  getRelationshipType p (Some "Status") = CONFIG.UML.RELATIONSHIPS.COMPOSITION
  /\ getRelationshipType p (Some "User") = CONFIG.UML.RELATIONSHIPS.AGGREGATION
  /\ getRelationshipType p (Some "UnknownType") = CONFIG.UML.RELATIONSHIPS.AGGREGATION
  /\ getRelationshipType p None = CONFIG.UML.RELATIONSHIPS.COMPOSITION
  /\ has (knownTypes (Examples.parserOf Examples.userAddress)) "Address" = true
  /\ has (knownEnumTypes (Examples.parserOf Examples.userAddress)) "Address" = false
  /\ match PlantUMLGenerator.generate (Examples.parserOf Examples.userAddress)
                                      Examples.userAddress None with
     | inr g =>
         PlantUMLGenerator.relations g
         = [ "User " +:+ CONFIG.UML.RELATIONSHIPS.AGGREGATION +:+ " "
             +:+ CONFIG.UML.CARDINALITY.MULTIPLE +:+ " Address" ]
     | inl _ => False
     end.
Proof. vm_compute. repeat split; reflexivity. Qed.

(** C6. [getCardinality] returns MULTIPLE for a map or repeated field;
    otherwise OPTIONAL for a field whose rule is [optional] or that belongs
    to a oneof; otherwise REQUIRED; and REQUIRED when there is no field.
    The three values are different strings. *)
Theorem getCardinality_cases (field : option Field.t) :
  match field with
  | None => getCardinality field = CONFIG.UML.CARDINALITY.REQUIRED
  | Some f =>
      (Field.map f = true \/ Field.repeated f = true ->
       getCardinality field = CONFIG.UML.CARDINALITY.MULTIPLE)
      /\ (Field.map f = false -> Field.repeated f = false ->
          Field.rule f = Some "optional" \/ is_Some (Field.partOf f) ->
          getCardinality field = CONFIG.UML.CARDINALITY.OPTIONAL)
      /\ (Field.map f = false -> Field.repeated f = false ->
          Field.rule f <> Some "optional" -> Field.partOf f = None ->
          getCardinality field = CONFIG.UML.CARDINALITY.REQUIRED)
  end
  /\ CONFIG.UML.CARDINALITY.MULTIPLE <> CONFIG.UML.CARDINALITY.OPTIONAL
  /\ CONFIG.UML.CARDINALITY.MULTIPLE <> CONFIG.UML.CARDINALITY.REQUIRED
  /\ CONFIG.UML.CARDINALITY.OPTIONAL <> CONFIG.UML.CARDINALITY.REQUIRED.
Proof.
  split; [|repeat split; discriminate].
  destruct field as [f|]; [|reflexivity].
  unfold getCardinality, isOptionalField.
  destruct f as [name type map repeated rule partOf keyType reserved]; cbn.
  repeat split.
  - intros [-> | ->]; [reflexivity | now destruct map].
  - intros -> -> [-> | [o ->]]; cbn; [reflexivity|].
    now destruct rule as [r|]; [destruct (String.eqb r "optional")|].
  - intros -> -> Hrule ->; cbn.
    destruct rule as [r|]; [|reflexivity].
    destruct (String.eqb_spec r "optional") as [->|]; [congruence | reflexivity].
Qed.

Lemma getCardinality_cases_witness :
  getCardinality (Examples.repeatedField "addresses" "Address")
  = CONFIG.UML.CARDINALITY.MULTIPLE
  /\ getCardinality (Some Examples.payByCard) = CONFIG.UML.CARDINALITY.OPTIONAL
  /\ getCardinality (Examples.plainField "street" "string")
     = CONFIG.UML.CARDINALITY.REQUIRED.
Proof.
  split; [|split].
  - apply (proj1 (proj1 (getCardinality_cases
                           (Examples.repeatedField "addresses" "Address")))).
    right; reflexivity.
  - apply (proj1 (proj2 (proj1 (getCardinality_cases (Some Examples.payByCard)))));
      [reflexivity | reflexivity | right; eexists; reflexivity].
  - apply (proj2 (proj2 (proj1 (getCardinality_cases
                                  (Examples.plainField "street" "string")))));
      [reflexivity | reflexivity | discriminate | reflexivity].
Defined.

(** Upper-casing never produces an underscore. *)
Lemma upper_not_underscore c :
  Ascii.eqb c "_"%char = false -> Ascii.eqb (Str.upper c) "_"%char = false.
Proof.
  destruct c as [[] [] [] [] [] [] [] []]; vm_compute; congruence.
Qed.

Lemma lower_not_underscore c :
  Str.isLower c = true -> Ascii.eqb c "_"%char = false.
Proof.
  destruct c as [[] [] [] [] [] [] [] []]; vm_compute; congruence.
Qed.

Lemma spec_camel_no_underscore : forall name up,
  no_underscore (spec_camel up name) = true.
Proof.
  induction name as [|c rest IH]; intros up; [reflexivity|].
  cbn [spec_camel]. destruct (Ascii.eqb c "_"%char) eqn:E; [apply IH|].
  cbn [no_underscore]. rewrite IH, andb_true_r.
  destruct up; [now rewrite upper_not_underscore | now rewrite E].
Qed.

(** Induction on strings that looks two characters ahead, as the scan of
    [replace_underscore_lower] does. *)
Lemma string_ind2 (P : string -> Prop) :
  P EmptyString ->
  (forall c, P (String c EmptyString)) ->
  (forall c letter rest,
     P rest -> P (String letter rest) -> P (String c (String letter rest))) ->
  forall name, P name.
Proof.
  intros H0 H1 H2 name.
  enough (H : P name /\ forall c, P (String c name)) by apply H.
  induction name as [|letter rest [IHa IHb]]; split; auto.
Qed.

Lemma replace_strict_snake : forall name,
  strict_snake name = true ->
  replace_underscore_lower name = spec_camel false name.
Proof.
  induction name as [|c|c letter rest IHrest IH] using string_ind2; intros H.
  - reflexivity.
  - cbn in H |- *. destruct (Ascii.eqb c "_"%char); [discriminate | reflexivity].
  - change (replace_underscore_lower (String c (String letter rest)))
      with (if Ascii.eqb c "_"%char && Str.isLower letter
            then String (Str.upper letter) (replace_underscore_lower rest)
            else String c (replace_underscore_lower (String letter rest))).
    change (strict_snake (String c (String letter rest)))
      with (if Ascii.eqb c "_"%char
            then Str.isLower letter && strict_snake (String letter rest)
            else strict_snake (String letter rest)) in H.
    change (spec_camel false (String c (String letter rest)))
      with (if Ascii.eqb c "_"%char then spec_camel true (String letter rest)
            else String c (spec_camel false (String letter rest))).
    destruct (Ascii.eqb c "_"%char) eqn:E.
    + apply andb_prop in H as [Hl Hs]. rewrite Hl. cbn [andb].
      cbn [spec_camel]. rewrite (lower_not_underscore _ Hl). f_equal.
      apply IHrest. cbn [strict_snake] in Hs.
      now rewrite (lower_not_underscore _ Hl) in Hs.
    + cbn [andb]. f_equal. apply IH. exact H.
Qed.

Lemma replace_no_underscore : forall name,
  no_underscore name = true -> replace_underscore_lower name = name.
Proof.
  induction name as [|c|c letter rest IHrest IH] using string_ind2; intros H.
  - reflexivity.
  - reflexivity.
  - change (replace_underscore_lower (String c (String letter rest)))
      with (if Ascii.eqb c "_"%char && Str.isLower letter
            then String (Str.upper letter) (replace_underscore_lower rest)
            else String c (replace_underscore_lower (String letter rest))).
    change (no_underscore (String c (String letter rest)))
      with (negb (Ascii.eqb c "_"%char) && no_underscore (String letter rest)) in H.
    apply andb_prop in H as [Hc H]. apply negb_true_iff in Hc. rewrite Hc.
    cbn [andb]. f_equal. apply IH. exact H.
Qed.

End ResolverClaims.

(** ** The generator: how a generation moves its state *)

Section GeneratorFacts.
Import JS Protobuf PlantUMLGenerator ResolverSpec.
Local Open Scope string_scope.
Variable parser : ProtoParser.t.

Lemma andThen_inr m k g' :
  andThen m k = inr g' -> exists g1, m = inr g1 /\ k g1 = inr g'.
Proof. destruct m as [e|g1]; cbn; [discriminate | eauto]. Qed.

Lemma wrap_inr {A} context (m : result A) a :
  wrap A context m = inr a -> m = inr a.
Proof. destruct m; cbn; congruence. Qed.

(** Pushing a list of lines one by one. *)
Lemma pushAll_eq : forall ls g,
  fold_left (fun g line => push line g) ls g
  = mk (lines g ++ ls) (relations g) (relationSet g).
Proof.
  induction ls as [|l ls IH]; intros g.
  - cbn. rewrite app_nil_r. now destruct g.
  - cbn [fold_left]. rewrite IH. cbn. now rewrite <- app_assoc.
Qed.

Lemma steps_pushAll : forall ls g,
  rtc step g (mk (lines g ++ ls) (relations g) (relationSet g)).
Proof.
  induction ls as [|l ls IH]; intros g.
  - rewrite app_nil_r. destruct g. apply rtc_refl.
  - eapply rtc_l; [apply (step_push l)|].
    specialize (IH (push l g)). cbn in IH. rewrite <- app_assoc in IH. exact IH.
Qed.

Lemma processOneofNotes_eq name oneofs g :
  processOneofNotes name (Some oneofs) g
  = mk (lines g ++ flat_map (fun entry => oneofNote name (snd entry)) oneofs)
       (relations g) (relationSet g).
Proof.
  unfold processOneofNotes. revert g.
  induction oneofs as [|entry oneofs IH]; intros g.
  - cbn. rewrite app_nil_r. now destruct g.
  - cbn [fold_left flat_map]. rewrite IH, pushAll_eq. cbn.
    now rewrite <- app_assoc.
Qed.

Lemma steps_processOneofNotes name oneofs g :
  rtc step g (processOneofNotes name oneofs g).
Proof.
  destruct oneofs as [oneofs|]; [|apply rtc_refl].
  rewrite processOneofNotes_eq. apply steps_pushAll.
Qed.

Lemma step_deduplicated g g' : step g g' -> deduplicated g -> deduplicated g'.
Proof.
  intros [line g0 | relation g0] [Hnd Hset]; [split; assumption|].
  unfold addRelation, ProtoParser.has.
  case_bool_decide as Hin; [split; assumption|].
  split; cbn.
  - apply NoDup_app. split; [exact Hnd|]. split.
    + intros x Hx [->|[]]%list_elem_of_In. apply Hin, Hset.
      now apply list_elem_of_In.
    + apply NoDup_singleton.
  - intros x. rewrite elem_of_union, elem_of_singleton, in_app_iff, Hset.
    cbn. intuition congruence.
Qed.

Lemma step_extends g g' :
  step g g' ->
  extends (relations g') (relations g) /\ extends (lines g') (lines g).
Proof.
  intros [line g0 | relation g0].
  - split; [exists []; now rewrite app_nil_r | now exists [line]].
  - unfold addRelation. destruct (ProtoParser.has _ _); cbn.
    + split; exists []; now rewrite app_nil_r.
    + split; [now exists [relation] | exists []; now rewrite app_nil_r].
Qed.


Lemma steps_extends g g' :
  rtc step g g' ->
  extends (relations g') (relations g) /\ extends (lines g') (lines g).
Proof.
  induction 1 as [g | g g1 g2 Hs _ [[r2 E2] [l2 F2]]].
  - split; exists []; now rewrite app_nil_r.
  - destruct (step_extends _ _ Hs) as [[r1 E1] [l1 F1]].
    split; [exists (r1 ++ r2)%list | exists (l1 ++ l2)%list];
      rewrite ?E2, ?F2, ?E1, ?F1; now rewrite <- app_assoc.
Qed.

Lemma deduplicated_reset : deduplicated reset.
Proof.
  split; cbn; [constructor|]. intros x. split; [|intros []].
  intros H. now apply not_elem_of_empty in H.
Qed.

End GeneratorFacts.

Section GenerationSteps.
Import JS Protobuf PlantUMLGenerator ResolverSpec.
Local Open Scope string_scope.
Variable parser : ProtoParser.t.

Lemma steps_push line g : rtc step g (push line g).
Proof. apply rtc_once, step_push. Qed.

Lemma steps_addRelation relation g : rtc step g (addRelation relation g).
Proof. apply rtc_once, step_relation. Qed.

Lemma steps_createRelationship field fieldType parentTypeName g g' :
  createRelationship parser field fieldType parentTypeName g = inr g' ->
  rtc step g g'.
Proof.
  unfold createRelationship.
  destruct (ProtoParser.resolveTypeName _ _ _) as [e|resolved]; [discriminate|].
  destruct (ProtoParser.has _ resolved); intros [= <-];
    [apply steps_addRelation | apply rtc_refl].
Qed.

Lemma steps_processMessageField field parentTypeName g g' :
  processMessageField parser field parentTypeName g = inr g' -> rtc step g g'.
Proof.
  unfold processMessageField.
  destruct (ProtoParser.extractFieldType _ _) as [e|fieldType]; [discriminate|].
  destruct (negb _); intros H.
  - eapply rtc_l; [apply step_push|].
    eapply steps_createRelationship, H.
  - injection H as <-. apply steps_push.
Qed.

Lemma steps_processFields : forall fields messageName g g',
  processFields parser fields messageName g = inr g' -> rtc step g g'.
Proof.
  induction fields as [|field fields IH]; intros messageName g g' H.
  - injection H as <-. apply rtc_refl.
  - cbn [processFields] in H.
    apply andThen_inr in H as (g1 & H1 & H2). apply wrap_inr in H1.
    eapply rtc_trans; [eapply steps_processMessageField, H1 | eapply IH, H2].
Qed.

Lemma steps_enumValues : forall (values : list (string * Z)) g,
  rtc step g
    (fold_left (fun g entry =>
                  let enumValue := fst entry in
                  if truthy enumValue then push ("  " +:+ enumValue) g else g)
               values g).
Proof.
  induction values as [|entry values IH]; intros g; [apply rtc_refl|].
  cbn [fold_left]. cbv zeta. destruct (truthy (fst entry)); [|apply IH].
  eapply rtc_l; [apply step_push | apply IH].
Qed.

Lemma steps_processEnumType name values parentName g g' :
  processEnumType name values parentName g = inr g' -> rtc step g g'.
Proof.
  unfold processEnumType. destruct (negb (truthy name)); [discriminate|].
  destruct values as [values|]; [|discriminate]. intros [= <-].
  eapply rtc_l; [apply step_push|].
  eapply rtc_trans; [apply steps_enumValues | apply steps_push].
Qed.

Lemma steps_processMethod serviceName method g g' :
  processMethod serviceName method g = inr g' -> rtc step g g'.
Proof.
  unfold processMethod. destruct method as [method|]; [|discriminate].
  destruct (negb (truthy (Method.name method))); [discriminate|].
  intros [= <-].
  eapply rtc_l; [apply step_push|].
  eapply rtc_l; [apply step_relation | apply steps_addRelation].
Qed.

Lemma steps_processMethods : forall methods serviceName g g',
  processMethods serviceName methods g = inr g' -> rtc step g g'.
Proof.
  induction methods as [|entry methods IH]; intros serviceName g g' H.
  - injection H as <-. apply rtc_refl.
  - cbn [processMethods] in H.
    apply andThen_inr in H as (g1 & H1 & H2).
    eapply rtc_trans; [eapply steps_processMethod, H1 | eapply IH, H2].
Qed.

Lemma steps_processServiceType name methods g g' :
  processServiceType name methods g = inr g' -> rtc step g g'.
Proof.
  unfold processServiceType. destruct (negb (truthy name)); [discriminate|].
  destruct methods as [methods|]; [|discriminate]. intros H.
  apply andThen_inr in H as (g1 & H1 & [= <-]).
  eapply rtc_l; [apply step_push|].
  eapply rtc_trans; [eapply steps_processMethods, H1 | apply steps_push].
Qed.

(** The three functions that walk the tree. *)
Lemma steps_tree :
  (forall n,
     (forall g g', processMessageType parser n g = inr g' -> rtc step g g')
     /\ (forall parentName g g',
           processNamespace parser n parentName g = inr g' -> rtc step g g'))
  /\ (forall es parentName g g',
        processLoop parser es parentName g = inr g' -> rtc step g g').
Proof.
  apply node_entries_ind.
  - split; [discriminate|]. intros parentName g g' H. discriminate.
  - intros [es|] Hes; (split; [discriminate|]); intros parentName g g' H; cbn in H.
    + eapply Hes, H.
    + injection H as <-. apply rtc_refl.
  - intros name fieldsArray oneofs o Ho. split.
    + intros g g' H. cbn [processMessageType] in H.
      destruct (negb (truthy name)); [discriminate|].
      apply andThen_inr in H as (g1 & H1 & H).
      apply andThen_inr in H as (g2 & H2 & [= <-]).
      set (g0 := if match o with Some es => some isEnum es | None => false end
                 then push _ g else g) in H1.
      assert (S0 : rtc step g g0)
        by (unfold g0; destruct (match o with Some es => _ | None => _ end);
            [apply steps_push | apply rtc_refl]).
      eapply rtc_trans; [exact S0|].
      eapply rtc_l; [apply step_push|].
      eapply rtc_trans; [eapply steps_processFields, H1|].
      eapply rtc_l; [apply step_push|].
      eapply rtc_trans; [apply steps_processOneofNotes|].
      eapply rtc_trans.
      * destruct o as [es|]; [eapply Ho, H2|]. injection H2 as <-. apply rtc_refl.
      * destruct (match o with Some es => _ | None => _ end);
          [apply steps_push | apply rtc_refl].
    + intros parentName g g' H. destruct o as [es|]; cbn in H.
      * eapply Ho, H.
      * injection H as <-. apply rtc_refl.
  - intros name values. split; [discriminate|].
    intros parentName g g' [= <-]. apply rtc_refl.
  - intros name methods [es|] Hes; (split; [discriminate|]);
      intros parentName g g' H; cbn in H.
    + eapply Hes, H.
    + injection H as <-. apply rtc_refl.
  - intros parentName g g' [= <-]. apply rtc_refl.
  - intros key value rest [Hm Hn] Hrest parentName g g' H.
    cbn [processLoop] in H.
    apply andThen_inr in H as (g1 & H1 & H2). apply wrap_inr in H1.
    eapply rtc_trans; [|eapply Hrest, H2].
    destruct value as [|[es|]|name fieldsArray oneofs o|name values|name methods o].
    + injection H1 as <-. apply rtc_refl.
    + eapply Hn, H1.
    + injection H1 as <-. apply rtc_refl.
    + eapply Hm, H1.
    + eapply steps_processEnumType, H1.
    + eapply steps_processServiceType, H1.
Qed.

Lemma steps_forEach (f : node -> t -> result t) :
  (forall x g g', f x g = inr g' -> rtc step g g') ->
  forall l g g', forEach f l g = inr g' -> rtc step g g'.
Proof.
  intros Hf. induction l as [|x l IH]; intros g g' H.
  - injection H as <-. apply rtc_refl.
  - cbn [forEach] in H. apply andThen_inr in H as (g1 & H1 & H2).
    eapply rtc_trans; [eapply Hf, H1 | eapply IH, H2].
Qed.

Lemma steps_processNamespaceFlat ns g g' :
  processNamespaceFlat parser ns g = inr g' -> rtc step g g'.
Proof.
  unfold processNamespaceFlat. intros H.
  apply andThen_inr in H as (g1 & H1 & H).
  apply andThen_inr in H as (g2 & H2 & H3).
  eapply rtc_trans; [|eapply rtc_trans].
  - eapply steps_forEach, H1. intros x. apply (proj1 steps_tree x).
  - eapply steps_forEach, H2. intros [| | |name values|] g0 g0' E;
      try (injection E as <-; apply rtc_refl).
    eapply steps_processEnumType, E.
  - eapply steps_forEach, H3. intros [| | | |name methods o] g0 g0' E;
      try (injection E as <-; apply rtc_refl).
    eapply steps_processServiceType, E.
Qed.

Lemma steps_processRoot root packageName g g' :
  processRoot parser root packageName g = inr g' -> rtc step g g'.
Proof.
  unfold processRoot.
  destruct packageName as [packageName|];
    [|apply (proj2 (proj1 steps_tree root))].
  destruct (truthy packageName && Str.trimmed_truthy packageName);
    [|apply (proj2 (proj1 steps_tree root))].
  destruct (shouldUsePackage _); [|apply (proj2 (proj1 steps_tree _))].
  intros H. apply andThen_inr in H as (g1 & H1 & [= <-]).
  eapply rtc_l; [apply step_push|].
  eapply rtc_trans; [eapply steps_processNamespaceFlat, H1 | apply steps_push].
Qed.

End GenerationSteps.

(** ** Claims about the generator *)

Section GeneratorClaims.
Import JS Protobuf PlantUMLGenerator ResolverSpec.
Local Open Scope string_scope.








(** Three fields of [Customer] refer to [Address], two of them required
    and one repeated: two edges, in the order of their first field. *)
Example customer_edges :
  relations (Diagrams.diagram Examples.customerAddress None)
  = [ "Customer --o " +:+ CONFIG.UML.CARDINALITY.REQUIRED +:+ " Address";
      "Customer --o " +:+ CONFIG.UML.CARDINALITY.MULTIPLE +:+ " Address" ].
Proof. vm_compute. reflexivity. Qed.

(** C9. [processOneofNotes] writes, for the oneof groups of a message in
    their order, nothing for a group of one field and, for a group of two
    or more fields, one note of three lines whose middle line names all
    the fields of the group, in camel case, joined by [or]; it leaves the
    relationships alone. *)
Theorem oneof_notes (messageName : string) (oneofs : list (string * OneOf.t))
    (g : t) :
  lines (processOneofNotes messageName (Some oneofs) g)
  = (lines g ++ flat_map (fun entry => oneofNote messageName (snd entry)) oneofs)%list
  /\ relations (processOneofNotes messageName (Some oneofs) g) = relations g
  /\ (forall field, oneofNote messageName (OneOf.mk (Some [field])) = [])
  /\ (forall field1 field2 fields,
        oneofNote messageName (OneOf.mk (Some (field1 :: field2 :: fields)))
        = [ "note right of " +:+ messageName;
            "  Only one of "
            +:+ Str.join " or "
                  (List.map (fun field => ProtoParser.toCamelCase (Field.name field))
                            (field1 :: field2 :: fields))
            +:+ " is set";
            "end note" ]).
Proof.
  rewrite processOneofNotes_eq. cbn. repeat split; reflexivity.
Qed.

(** [Payment] has a group of two fields and a group of one. *)
Example payment_notes :
  lines (Diagrams.diagram
           (Namespace (Some (ECons "Payment" Examples.Payment ENil))) None)
  = (header
     ++ [ "object Payment {";
          "  creditCard : string ?";
          "  bankAccount : string ?";
          "  note : string ?";
          "}";
          "note right of Payment";
          "  Only one of creditCard or bankAccount is set";
          "end note";
          "@enduml" ])%list.
Proof. vm_compute. reflexivity. Qed.

End GeneratorClaims.

Section PackageClaims.
Import JS Protobuf PlantUMLGenerator ResolverSpec.
Local Open Scope string_scope.

(** [findContentNamespace] only returns a namespace found deeper when that
    namespace is not the entry it was looked up from, and a recursive call
    never returns anything else: the content namespace is the argument. *)
Lemma findContentNamespace_same :
  (forall n, findContentNamespace n = (n, true))
  /\ (forall es, findContentLoop es = None).
Proof.
  apply node_entries_ind.
  - reflexivity.
  - intros [es|] H; cbn; [|reflexivity].
    cbn in H. rewrite H. now destruct (some isContent es).
  - intros name fieldsArray oneofs [es|] H; cbn; [|reflexivity].
    cbn in H. rewrite H. now destruct (some isContent es).
  - reflexivity.
  - intros name methods [es|] H; cbn; [|reflexivity].
    cbn in H. rewrite H. now destruct (some isContent es).
  - reflexivity.
  - intros key value rest Hv Hrest. cbn [findContentLoop].
    rewrite Hv, Hrest. cbn.
    now destruct value as [|[?|]|? ? ? [?|]| |? ? [?|]].
Qed.




(** The package [a] with the single message [M]. *)
Example package_a_one_message :
  lines (Diagrams.diagram Examples.packageA (Some "a"))
  = (header ++ [ "object M {"; "  name : string"; "}"; "@enduml" ])%list.
Proof. vm_compute. reflexivity. Qed.

End PackageClaims.

Section CamelCaseClaims.
Import JS Protobuf PlantUMLGenerator ProtoParser ResolverSpec.
Local Open Scope string_scope.

(** C3, as stated, fails: an underscore that is not followed by a
    lower-case letter stays in the name. *)
Lemma toCamelCase_keeps_underscore :
  toCamelCase "address_2" = "address_2"
  /\ no_underscore (toCamelCase "address_2") = false
  /\ toCamelCase "user__id" = "user_Id"
  /\ toCamelCase "name_" = "name_"
  /\ toCamelCase "max_Size" = "max_Size".
Proof. vm_compute. repeat split; reflexivity. Qed.

Lemma lines_addRelation relation g : lines (addRelation relation g) = lines g.
Proof. unfold addRelation. now destruct (has (relationSet g) relation). Qed.

Lemma processMessageField_line parser field parentTypeName g :
  truthy (Field.type field) = true ->
  exists g',
    processMessageField parser field parentTypeName g = inr g'
    /\ lines g'
       = (lines g
          ++ [ "  " +:+ toCamelCase (Field.name field) +:+ " : "
               +:+ displayTypeOf field (Field.type field) ])%list.
Proof.
  intros Ht. unfold processMessageField, extractFieldType. rewrite Ht. cbn [negb].
  destruct (negb (isWellKnownType (Field.type field))); [|eexists; split; reflexivity].
  unfold createRelationship, resolveTypeName. rewrite Ht. cbn [negb].
  destruct (has (knownTypes parser) (Field.type field)) eqn:E1.
  - rewrite E1. eexists. split; [reflexivity | apply lines_addRelation].
  - destruct (truthy parentTypeName && has (knownTypes parser) _) eqn:E2.
    + apply andb_prop in E2 as [_ E2]. rewrite E2.
      eexists. split; [reflexivity | apply lines_addRelation].
    + rewrite E1. eexists. split; reflexivity.
Qed.

(** The guard of [toCamelCase] changes nothing on strings: the
    replacement leaves the empty name as it is. *)
Lemma toCamelCase_replace name :
  toCamelCase name = replace_underscore_lower name.
Proof. now destruct name. Qed.

(** An underscore in front of a text that does not start with a
    lower-case letter is no match: the scan keeps it, and what stands
    before and after it is converted as if it stood alone. *)
Lemma replace_keeps_underscore : forall before after,
  lowerFirst after = false ->
  replace_underscore_lower (before +:+ "_" +:+ after)
  = replace_underscore_lower before +:+ "_" +:+ replace_underscore_lower after.
Proof.
  assert (H0 : forall after,
             lowerFirst after = false ->
             replace_underscore_lower ("_" +:+ after)
             = "_" +:+ replace_underscore_lower after).
  { intros [|letter rest] H; [reflexivity|].
    change (replace_underscore_lower ("_" +:+ String letter rest))
      with (if Ascii.eqb "_"%char "_"%char && Str.isLower letter
            then String (Str.upper letter) (replace_underscore_lower rest)
            else String "_"%char (replace_underscore_lower (String letter rest))).
    cbn [lowerFirst] in H. rewrite H, andb_false_r. reflexivity. }
  induction before as [|c|c letter rest IHrest IH] using string_ind2;
    intros after H.
  - now apply H0.
  - change (replace_underscore_lower (String c EmptyString +:+ "_" +:+ after))
      with (if Ascii.eqb c "_"%char && Str.isLower "_"%char
            then String (Str.upper "_"%char) (replace_underscore_lower after)
            else String c (replace_underscore_lower ("_" +:+ after))).
    replace (Str.isLower "_"%char) with false by reflexivity.
    rewrite andb_false_r, (H0 _ H). reflexivity.
  - change (replace_underscore_lower (String c (String letter rest) +:+ "_" +:+ after))
      with (if Ascii.eqb c "_"%char && Str.isLower letter
            then String (Str.upper letter)
                   (replace_underscore_lower (rest +:+ "_" +:+ after))
            else String c
                   (replace_underscore_lower (String letter rest +:+ "_" +:+ after))).
    change (replace_underscore_lower (String c (String letter rest)))
      with (if Ascii.eqb c "_"%char && Str.isLower letter
            then String (Str.upper letter) (replace_underscore_lower rest)
            else String c (replace_underscore_lower (String letter rest))).
    destruct (Ascii.eqb c "_"%char && Str.isLower letter).
    + rewrite (IHrest _ H). reflexivity.
    + rewrite (IH _ H). reflexivity.
Qed.

Lemma underscore_shows : forall a b, no_underscore (a +:+ "_" +:+ b) = false.
Proof.
  induction a as [|c a IH]; intros b; [reflexivity|].
  change (no_underscore (String c a +:+ "_" +:+ b))
    with (negb (Ascii.eqb c "_"%char) && no_underscore (a +:+ "_" +:+ b)).
  now rewrite IH, andb_false_r.
Qed.

(** C3, amended.  The name on the line of a field is [toCamelCase] of the
    declared name.  On a name in which every underscore is immediately
    followed by a lower-case letter a-z, [toCamelCase] removes the
    underscores and upper-cases the letter after each, and no underscore
    is left; on a name without underscores it changes nothing.  An
    underscore that is not followed by a lower-case letter a-z, so one
    before a digit, an upper-case letter, another underscore or the end of
    the name, is kept wherever it stands in a name: the result is the
    conversion of what stands before it, the underscore, and the
    conversion of what stands after it, so it still holds an
    underscore. *)
Theorem toCamelCase_snake_to_camel
    (parser : ProtoParser.t) (field : Field.t) (parentTypeName : string)
    (g : PlantUMLGenerator.t) (name : string) :
  (truthy (Field.type field) = true ->
   exists g',
     processMessageField parser field parentTypeName g = inr g'
     /\ lines g'
        = (lines g
           ++ [ "  " +:+ toCamelCase (Field.name field) +:+ " : "
                +:+ displayTypeOf field (Field.type field) ])%list)
  /\ (strict_snake name = true ->
      toCamelCase name = spec_camel false name
      /\ no_underscore (toCamelCase name) = true)
  /\ (no_underscore name = true -> toCamelCase name = name)
  /\ (forall before after,
        name = before +:+ "_" +:+ after ->
        lowerFirst after = false ->
        toCamelCase name = toCamelCase before +:+ "_" +:+ toCamelCase after
        /\ no_underscore (toCamelCase name) = false).
Proof.
  split; [apply processMessageField_line|].
  split; [|split].
  - intros H.
    assert (E : toCamelCase name = spec_camel false name).
    { unfold toCamelCase. destruct name; [reflexivity|].
      now apply replace_strict_snake. }
    split; [exact E|]. rewrite E. apply spec_camel_no_underscore.
  - intros H. unfold toCamelCase. destruct name; [reflexivity|].
    now apply replace_no_underscore.
  - intros before after -> H.
    assert (E : toCamelCase (before +:+ "_" +:+ after)
                = toCamelCase before +:+ "_" +:+ toCamelCase after).
    { rewrite !toCamelCase_replace. now apply replace_keeps_underscore. }
    split; [exact E|]. rewrite E. apply underscore_shows.
Qed.

Lemma toCamelCase_snake_to_camel_witness :
  strict_snake "first_name_last_name" = true
  /\ toCamelCase "first_name_last_name" = "firstNameLastName"
  /\ no_underscore "userName" = true
  /\ toCamelCase "userName" = "userName"
  /\ lowerFirst "2_line" = false
  /\ toCamelCase "street_address_2_line"
     = toCamelCase "street_address" +:+ "_" +:+ toCamelCase "2_line".
Proof.
  split; [reflexivity|]. split; [|split; [reflexivity|split; [|split; [reflexivity|]]]].
  - rewrite (proj1 (proj1 (proj2 (toCamelCase_snake_to_camel
                ProtoParser.new Examples.payByCard EmptyString reset
                "first_name_last_name")) eq_refl)).
    vm_compute. reflexivity.
  - exact (proj1 (proj2 (proj2 (toCamelCase_snake_to_camel
             ProtoParser.new Examples.payByCard EmptyString reset "userName")))
             eq_refl).
  - exact (proj1 (proj2 (proj2 (proj2 (toCamelCase_snake_to_camel
             ProtoParser.new Examples.payByCard EmptyString reset
             "street_address_2_line")))
             "street_address" "2_line" eq_refl eq_refl)).
Defined.

End CamelCaseClaims.


(** ** Further properties: the type collector *)

Section CollectorFacts.
Import JS Protobuf ProtoParser Declared.
Local Open Scope string_scope.

Lemma grown_nil p : grown p p [].
Proof. split; unfold typeNames, enumNames; cbn; set_solver. Qed.

Lemma grown_app p p1 p2 l1 l2 :
  grown p p1 l1 -> grown p1 p2 l2 -> grown p p2 (l1 ++ l2).
Proof.
  intros [T1 E1] [T2 E2]. split; unfold typeNames, enumNames in *.
  - rewrite T2, T1, map_app, list_to_set_app_L. set_solver.
  - rewrite E2, E1, List.filter_app, map_app, list_to_set_app_L. set_solver.
Qed.

Lemma grown_enum name parentName key p p' :
  collectEnumType name parentName key p = inr p' ->
  grown p p' (declared (Enum name None) parentName).
Proof.
  unfold collectEnumType, generateEnumName. cbn [declared].
  destruct (truthy name); cbn [negb]; [|discriminate].
  destruct (truthy parentName); intros H; injection H as <-;
    split; unfold typeNames, enumNames, addKnownType, addKnownEnumType;
    cbn [List.map List.filter fst snd list_to_set knownTypes knownEnumTypes];
    set_solver.
Qed.

Lemma wrap_inl {A} context (m : result A) message :
  wrap context m = inl message ->
  exists inner, m = inl inner /\ message = context +:+ inner.
Proof.
  destruct m as [inner|a]; cbn; intros H; [|discriminate].
  injection H as <-. exists inner. split; reflexivity.
Qed.

Lemma wrap_inr_parser {A} context (m : result A) a :
  wrap context m = inr a -> m = inr a.
Proof. destruct m; cbn; congruence. Qed.

Lemma collect_grown :
  (forall n,
     (forall key p p', collectMessageType n key p = inr p' ->
                       match n with
                       | Type_ _ _ _ _ => grown p p' (declared n EmptyString)
                       | _ => True
                       end)
     /\ (forall parentName p p',
           collectTypes n parentName p = inr p' ->
           grown p p' (declaredBelow n parentName)))
  /\ (forall es parentName p p',
        collectLoop es parentName p = inr p' ->
        grown p p' (declaredEntries es parentName)).
Proof.
  apply node_entries_ind.
  - split; [trivial|]. intros parentName p p' [= <-]. apply grown_nil.
  - intros [es|] Hes; (split; [trivial|]); intros parentName p p' H; cbn in H.
    + eapply Hes, H.
    + injection H as <-. apply grown_nil.
  - intros name fieldsArray oneofs o Ho. split.
    + intros key p p' H. cbn [collectMessageType] in H.
      destruct (truthy name); cbn [negb] in H; [|discriminate].
      change (declared (Type_ name fieldsArray oneofs o) EmptyString)
        with ([(name, false)]
              ++ match o with Some es => declaredEntries es name | None => [] end)%list.
      eapply grown_app with (p1 := addKnownType name p).
      * split; unfold typeNames, enumNames; cbn; set_solver.
      * destruct o as [es|]; [eapply Ho, H|]. injection H as <-. apply grown_nil.
    + intros parentName p p' H. destruct o as [es|]; cbn in H.
      * eapply Ho, H.
      * injection H as <-. apply grown_nil.
  - intros name values. split; [trivial|].
    intros parentName p p' [= <-]. apply grown_nil.
  - intros name methods [es|] Hes; (split; [trivial|]);
      intros parentName p p' H; cbn in H.
    + eapply Hes, H.
    + injection H as <-. apply grown_nil.
  - intros parentName p p' [= <-]. apply grown_nil.
  - intros key value rest [Hm Hn] Hrest parentName p p' H.
    cbn [collectLoop] in H. cbv zeta in H.
    destruct (wrap _ _) as [e|p1] eqn:E; [discriminate|].
    apply wrap_inr_parser in E.
    cbn [declaredEntries]. eapply grown_app; [|eapply Hrest, H].
    destruct value as [|[es|]|name fieldsArray oneofs o|name values|name methods [es|]].
    + injection E as <-. apply grown_nil.
    + apply (Hn _ _ _ E).
    + injection E as <-. apply grown_nil.
    + specialize (Hm _ _ _ E). cbn in Hm.
      (* the enclosing name does not matter for a message *)
      exact Hm.
    + apply (grown_enum _ _ _ _ _ E).
    + apply (Hn _ _ _ E).
    + injection E as <-. apply grown_nil.
Qed.

Lemma enumNames_typeNames l : enumNames l ⊆ typeNames l.
Proof.
  unfold enumNames, typeNames. induction l as [|[name [|]] l IH]; cbn; set_solver.
Qed.

(** X1. After a successful [collectTypes] the known types are the ones
    known before together with the names of all messages and enumerations
    of the tree, at any depth, each enumeration inside a message also
    under the composite name; the known enumerations grow by the
    enumerations' names only; and every known enumeration is still a known
    type if that held before. *)
Theorem collectTypes_registers_declared
    (root : node) (parentName : string) (p p' : ProtoParser.t) :
  collectTypes root parentName p = inr p' ->
  knownTypes p' = knownTypes p ∪ typeNames (declaredBelow root parentName)
  /\ knownEnumTypes p'
     = knownEnumTypes p ∪ enumNames (declaredBelow root parentName)
  /\ (knownEnumTypes p ⊆ knownTypes p -> knownEnumTypes p' ⊆ knownTypes p').
Proof.
  intros H. destruct (proj2 (proj1 collect_grown root) _ _ _ H) as [T E].
  split; [exact T|]. split; [exact E|].
  intros Hsub. rewrite T, E.
  pose proof (enumNames_typeNames (declaredBelow root parentName)). set_solver.
Qed.

Lemma collectTypes_registers_declared_witness :
  knownTypes (Examples.parserOf Examples.nestedStatus)
  = {[ "Task"; "State"; "Task_State"; "Priority" ]}
  /\ knownEnumTypes (Examples.parserOf Examples.nestedStatus)
     = {[ "State"; "Task_State"; "Priority" ]}.
Proof.
  destruct (collectTypes_registers_declared Examples.nestedStatus EmptyString
              ProtoParser.new (Examples.parserOf Examples.nestedStatus))
    as (T & E & _); [vm_compute; reflexivity|].
  rewrite T, E. unfold typeNames, enumNames. cbn. split; set_solver.
Defined.

Lemma collect_returns :
  (forall n,
     (forall key p,
        match n with
        | Type_ _ _ _ _ => returns (collectMessageType n key p) = named n
        | _ => True
        end)
     /\ (forall parentName p,
           returns (collectTypes n parentName p) = namedBelow n))
  /\ (forall es parentName p,
        returns (collectLoop es parentName p) = namedEntries es).
Proof.
  apply node_entries_ind.
  - split; [trivial | reflexivity].
  - intros [es|] Hes; (split; [trivial|]); intros parentName p; cbn;
      [apply Hes | reflexivity].
  - intros name fieldsArray oneofs o Ho. split.
    + intros key p. cbn [collectMessageType named].
      destruct (truthy name); cbn [negb andb]; [|reflexivity].
      destruct o as [es|]; [apply Ho | reflexivity].
    + intros parentName p. destruct o as [es|]; cbn; [apply Ho | reflexivity].
  - intros name values. split; [trivial | reflexivity].
  - intros name methods [es|] Hes; (split; [trivial|]); intros parentName p; cbn;
      [apply Hes | reflexivity].
  - reflexivity.
  - intros key value rest [Hm Hn] Hrest parentName p.
    cbn [collectLoop namedEntries]. cbv zeta.
    match goal with
    | |- returns (match wrap ?c ?step with _ => _ end) = _ =>
        assert (Hs : returns step = named value); [|destruct step as [e|p1]]
    end.
    + destruct value as [|[es|]|name fieldsArray oneofs o|name values|name methods [es|]];
        cbn [named]; try reflexivity.
      * apply Hn.
      * apply (Hm key p).
      * unfold collectEnumType. destruct (truthy name); cbn [negb]; [|reflexivity].
        now destruct (truthy parentName).
      * apply Hn.
    + cbn in Hs |- *. now rewrite <- Hs.
    + cbn in Hs |- *. rewrite <- Hs. apply Hrest.
Qed.

Lemma prefix_append (a b : string) : String.prefix a (a +:+ b) = true.
Proof.
  induction a as [|c a IH]; simpl; [now destruct b|].
  destruct (ascii_dec c c); [exact IH | congruence].
Qed.

Lemma append_assoc (a b c : string) : (a +:+ b) +:+ c = a +:+ (b +:+ c).
Proof.
  induction a as [|x a IH]; [reflexivity|].
  change (String x ((a +:+ b) +:+ c) = String x (a +:+ (b +:+ c))).
  f_equal. exact IH.
Qed.

Lemma collectLoop_message : forall es parentName p message,
  collectLoop es parentName p = inl message ->
  String.prefix "Failed to collect types from '" message = true.
Proof.
  induction es as [|key value rest IH]; intros parentName p message H;
    [discriminate|].
  cbn [collectLoop] in H. cbv zeta in H.
  destruct (wrap _ _) as [e|p1] eqn:E.
  - injection H as <-. apply wrap_inl in E as (inner & _ & ->).
    change (String.prefix "Failed to collect types from '"
              (("Failed to collect types from '" +:+ (key +:+ "': ")) +:+ inner)
            = true).
    rewrite append_assoc. apply prefix_append.
  - eapply IH, H.
Qed.

(** X2. [collectTypes] throws exactly when some message or enumeration of
    the tree has no name, whatever the parser held; the message of the
    error then starts with [Failed to collect types from ']. *)
Theorem collectTypes_throws_iff_nameless
    (root : node) (parentName : string) (p : ProtoParser.t) :
  returns (collectTypes root parentName p) = namedBelow root
  /\ match collectTypes root parentName p with
     | inl message =>
         String.prefix "Failed to collect types from '" message = true
     | inr _ => True
     end.
Proof.
  split; [apply (proj2 (proj1 collect_returns root))|].
  destruct (collectTypes root parentName p) as [message|p'] eqn:E; [|exact I].
  destruct root as [|[es|]|name fieldsArray oneofs [es|]|name values|name methods [es|]];
    cbn in E; try discriminate; eapply collectLoop_message, E.
Qed.

End CollectorFacts.

(** ** Further properties: names and fields *)

Section FieldFacts.
Import JS Protobuf PlantUMLGenerator ProtoParser ResolverSpec EmitSpec.
Local Open Scope string_scope.

Lemma upper_not_lower c : Str.isLower c = true -> Str.isLower (Str.upper c) = false.
Proof.
  destruct c as [[] [] [] [] [] [] [] []]; vm_compute; congruence.
Qed.

(** The first character of a converted name is the first character of
    the name, or an upper-cased letter. *)
Lemma replace_head c rest :
  exists h t,
    replace_underscore_lower (String c rest) = String h t
    /\ (h = c \/ Str.isLower h = false).
Proof.
  destruct rest as [|letter rest']; [exists c, EmptyString; auto|].
  cbn [replace_underscore_lower].
  destruct (Ascii.eqb c "_"%char && Str.isLower letter) eqn:E.
  - apply andb_prop in E as [_ E]. eexists _, _. split; [reflexivity|].
    right. now apply upper_not_lower.
  - eexists _, _. split; [reflexivity | now left].
Qed.

Lemma replace_has_no_match : forall name,
  has_match (replace_underscore_lower name) = false.
Proof.
  induction name as [|c|c letter rest IHrest IH] using string_ind2.
  - reflexivity.
  - reflexivity.
  - change (replace_underscore_lower (String c (String letter rest)))
      with (if Ascii.eqb c "_"%char && Str.isLower letter
            then String (Str.upper letter) (replace_underscore_lower rest)
            else String c (replace_underscore_lower (String letter rest))).
    destruct (Ascii.eqb c "_"%char && Str.isLower letter) eqn:E.
    + apply andb_prop in E as [_ El].
      destruct (replace_underscore_lower rest) as [|h t] eqn:R; [reflexivity|].
      cbn [has_match] in IHrest |- *.
      rewrite (upper_not_underscore letter (lower_not_underscore _ El)).
      cbn [andb orb]. exact IHrest.
    + destruct (replace_head letter rest) as (h & t & R & Hh).
      rewrite R in IH |- *. cbn [has_match] in IH |- *.
      rewrite IH, orb_false_r.
      destruct (Ascii.eqb c "_"%char); [|reflexivity]. cbn [andb] in E |- *.
      destruct Hh as [->|Hh]; assumption.
Qed.

Lemma replace_without_match : forall name,
  has_match name = false -> replace_underscore_lower name = name.
Proof.
  induction name as [|c|c letter rest IHrest IH] using string_ind2; intros H.
  - reflexivity.
  - reflexivity.
  - change (replace_underscore_lower (String c (String letter rest)))
      with (if Ascii.eqb c "_"%char && Str.isLower letter
            then String (Str.upper letter) (replace_underscore_lower rest)
            else String c (replace_underscore_lower (String letter rest))).
    change (has_match (String c (String letter rest)))
      with ((Ascii.eqb c "_"%char && Str.isLower letter)
            || has_match (String letter rest)) in H.
    apply orb_false_elim in H as [H1 H2]. rewrite H1. f_equal. now apply IH.
Qed.

(** X3. Converting a name twice gives what converting it once gives: the
    conversion leaves no underscore followed by a lower-case letter. *)
Theorem toCamelCase_idempotent (name : string) :
  toCamelCase (toCamelCase name) = toCamelCase name
  /\ has_match (toCamelCase name) = false.
Proof.
  assert (H : has_match (toCamelCase name) = false).
  { unfold toCamelCase. destruct name; [reflexivity|]. apply replace_has_no_match. }
  split; [|exact H].
  unfold toCamelCase at 1.
  destruct (toCamelCase name) eqn:E; [reflexivity|]. cbn [truthy negb].
  now apply replace_without_match.
Qed.

(** X4. A field whose type carries the well-known prefix, or whose type is
    neither a known type nor known under the composite name of its
    message, gets its line and nothing else: the relationships and their
    set are untouched, even when a well-known name happens to be a known
    type. *)
Theorem no_edge_for_external_type
    (parser : ProtoParser.t) (field : Field.t) (parentTypeName : string)
    (g : PlantUMLGenerator.t) :
  truthy (Field.type field) = true ->
  isWellKnownType (Field.type field) = true
  \/ (has (knownTypes parser) (Field.type field) = false
      /\ has (knownTypes parser) (parentTypeName +:+ "_" +:+ Field.type field)
         = false) ->
  processMessageField parser field parentTypeName g
  = inr (PlantUMLGenerator.mk (lines g ++ [fieldLine field])%list
                              (relations g) (relationSet g)).
Proof.
  intros Ht Hext. unfold processMessageField, extractFieldType.
  rewrite Ht. cbn [negb]. unfold push, fieldLine.
  destruct Hext as [Hw | [Hk Hc]].
  - rewrite Hw. reflexivity.
  - destruct (negb (isWellKnownType (Field.type field))); [|reflexivity].
    unfold createRelationship, resolveTypeName.
    rewrite Ht, Hk, Hc, andb_false_r. cbn [negb]. now rewrite Hk.
Qed.

Lemma no_edge_for_external_type_witness :
  processMessageField
    (ProtoParser.mk {[ "google.protobuf.Timestamp"; "Event" ]} ∅)
    (Field.mk "created_at" "google.protobuf.Timestamp" false false None None
              EmptyString false)
    "Event" reset
  = inr (PlantUMLGenerator.mk
           (header ++ ["  createdAt : google.protobuf.Timestamp"])%list [] ∅).
Proof.
  rewrite no_edge_for_external_type; [reflexivity | reflexivity |].
  left. vm_compute. reflexivity.
Defined.

End FieldFacts.

(** ** Further properties: the blocks of a diagram *)

Section BlockFacts.
Import JS Protobuf PlantUMLGenerator ResolverSpec EmitSpec Declared.
Local Open Scope string_scope.
Variable parser : ProtoParser.t.

Lemma keptFields_In fieldsArray field :
  In field (keptFields fieldsArray)
  <-> In (Some field) fieldsArray /\ Field.reserved field = false.
Proof.
  unfold keptFields. induction fieldsArray as [|[f|] fs IH]; cbn.
  - tauto.
  - destruct (Field.reserved f) eqn:R; cbn; rewrite IH; split.
    + intros [H1 H2]. auto.
    + intros [[[= ->]|H1] H2]; [congruence | auto].
    + intros [->|[H1 H2]]; auto.
    + intros [[[= ->]|H1] H2]; auto.
  - rewrite IH. split; [intros [H1 H2]; auto | intros [[[=]|H1] H2]; auto].
Qed.

Lemma processFields_lines : forall fields messageName g,
  Forall (fun field => truthy (Field.type field) = true) fields ->
  exists g',
    processFields parser fields messageName g = inr g'
    /\ lines g' = (lines g ++ List.map fieldLine fields)%list.
Proof.
  induction fields as [|field fields IH]; intros messageName g H.
  - exists g. split; [reflexivity | now rewrite app_nil_r].
  - inversion H as [|? ? Hf Hrest]; subst.
    destruct (processMessageField_line parser field messageName g Hf)
      as (g1 & E1 & L1).
    destruct (IH messageName g1 Hrest) as (g' & E' & L').
    exists g'. cbn [processFields]. rewrite E1. cbn. split; [exact E'|].
    rewrite L', L1. cbn. now rewrite <- app_assoc.
Qed.

Lemma keptFields_app (l1 l2 : list (option Field.t)) :
  keptFields (l1 ++ l2) = (keptFields l1 ++ keptFields l2)%list.
Proof.
  unfold keptFields. induction l1 as [|[f|] l1 IH]; cbn; [reflexivity| |exact IH].
  destruct (Field.reserved f); cbn; now rewrite IH.
Qed.

Lemma keptFields_lines (fieldsArray : list (option Field.t)) :
  List.map fieldLine (keptFields fieldsArray) = flat_map entryLines fieldsArray.
Proof.
  unfold keptFields. induction fieldsArray as [|[f|] fs IH]; cbn; [reflexivity| |exact IH].
  destruct (Field.reserved f); cbn; now rewrite IH.
Qed.

Lemma keptFields_typed (fieldsArray : list (option Field.t)) :
  (forall field, In (Some field) fieldsArray -> Field.reserved field = false ->
                 truthy (Field.type field) = true) ->
  Forall (fun field => truthy (Field.type field) = true) (keptFields fieldsArray).
Proof.
  intros H. apply List.Forall_forall. intros field Hin.
  apply keptFields_In in Hin as [H1 H2]. now apply H.
Qed.

(** X5. A message with a name, without nested entries, whose fields all
    have a type gives its block: the object line, one line for each entry
    of [fieldsArray] that is not null and not reserved, in the order of
    [fieldsArray], the closing brace, and the notes of its oneof groups;
    nothing is written for a null or reserved entry. *)
Theorem one_line_per_field
    (name : string) (fieldsArray : list (option Field.t))
    (oneofs : option (list (string * OneOf.t))) (g : PlantUMLGenerator.t) :
  truthy name = true ->
  (forall field, In (Some field) fieldsArray -> Field.reserved field = false ->
                 truthy (Field.type field) = true) ->
  exists g',
    processMessageType parser (Type_ name fieldsArray oneofs None) g = inr g'
    /\ lines g'
       = (lines g ++ ["object " +:+ name +:+ " {"]
          ++ flat_map entryLines fieldsArray ++ ["}"]
          ++ noteLines name oneofs)%list.
Proof.
  intros Hn Ht. cbn [processMessageType]. rewrite Hn. cbn [negb].
  destruct (processFields_lines (keptFields fieldsArray) name
              (push ("object " +:+ name +:+ " {") g) (keptFields_typed _ Ht))
    as (g1 & E1 & L1).
  rewrite E1. cbn [andThen]. eexists. split; [reflexivity|].
  rewrite keptFields_lines in L1. cbn [lines push] in L1.
  destruct oneofs as [groups|].
  - rewrite processOneofNotes_eq. cbn [lines push noteLines]. rewrite L1.
    now rewrite <- !app_assoc.
  - cbn [processOneofNotes lines push noteLines]. rewrite L1, app_nil_r.
    now rewrite <- !app_assoc.
Qed.

Lemma processFields_no_type : forall good bad more messageName g,
  Forall (fun field => truthy (Field.type field) = true) good ->
  truthy (Field.type bad) = false ->
  processFields parser (good ++ bad :: more) messageName g
  = inl ("Failed to process field in " +:+ messageName +:+ ": "
         +:+ noTypeMessage bad).
Proof.
  induction good as [|field good IH]; intros bad more messageName g Hg Hb.
  - cbn [app processFields]. unfold processMessageField, ProtoParser.extractFieldType.
    rewrite Hb. cbn [negb]. unfold wrap, ProtoParser.wrap, andThen, noTypeMessage.
    now rewrite !append_assoc.
  - inversion Hg as [|? ? Hf Hrest]; subst.
    destruct (processMessageField_line parser field messageName g Hf)
      as (g1 & E1 & _).
    cbn [app processFields]. rewrite E1. cbn. now apply IH.
Qed.

Lemma processMessageType_no_type
    (name : string) (good more : list (option Field.t)) (bad : Field.t)
    (oneofs : option (list (string * OneOf.t))) (nested : option entries)
    (g : PlantUMLGenerator.t) :
  truthy name = true ->
  (forall field, In (Some field) good -> Field.reserved field = false ->
                 truthy (Field.type field) = true) ->
  Field.reserved bad = false ->
  truthy (Field.type bad) = false ->
  processMessageType parser (Type_ name (good ++ Some bad :: more) oneofs nested) g
  = inl ("Failed to process field in " +:+ name +:+ ": " +:+ noTypeMessage bad).
Proof.
  intros Hn Hg Hr Hb. cbn [processMessageType]. rewrite Hn. cbn [negb].
  rewrite keptFields_app.
  replace (keptFields (Some bad :: more)) with (bad :: keptFields more)
    by (unfold keptFields; cbn; now rewrite Hr).
  rewrite (processFields_no_type _ bad _ name _ (keptFields_typed _ Hg) Hb).
  reflexivity.
Qed.

(** The messages collected from the entries come after the ones collected
    before. *)
Lemma collectAllLoop_messages : forall es acc,
  exists more, messages (collectAllLoop es acc) = (messages acc ++ more)%list.
Proof.
  induction es as [|key value rest IH]; intros acc.
  - exists []. now rewrite app_nil_r.
  - cbn [collectAllLoop].
    match goal with
    | |- exists more, messages (collectAllLoop rest ?acc') = _ =>
        destruct (IH acc') as [more E];
        assert (A : exists added, messages acc' = (messages acc ++ added)%list)
    end.
    { destruct value as [|[o|]| | |]; cbn [appendContent messages];
        solve [eexists; reflexivity | exists []; now rewrite app_nil_r]. }
    destruct A as [added A]. rewrite A in E.
    exists (added ++ more)%list. now rewrite E, <- app_assoc.
Qed.

(** X6. A field without a type stops the generation, with or without a
    package: when a message that is the first entry of the root has such
    a field after fields with types, the call fails.  The message of the
    error names the message and the field through the contexts added on
    the way up; the context that names the entry is added by the loop of
    [processNamespace] only, so it is missing when a package block is
    opened. *)
Theorem field_without_type_is_fatal
    (key name : string) (good more : list (option Field.t)) (bad : Field.t)
    (oneofs : option (list (string * OneOf.t))) (nested : option entries)
    (rest : entries) (packageName : option string) :
  truthy name = true ->
  (forall field, In (Some field) good -> Field.reserved field = false ->
                 truthy (Field.type field) = true) ->
  Field.reserved bad = false ->
  truthy (Field.type bad) = false ->
  let root :=
    Namespace (Some (ECons key (Type_ name (good ++ Some bad :: more) oneofs nested)
                           rest)) in
  generateFromRoot parser root packageName
  = inl ("Failed to process protobuf namespace: "
         +:+ (if opensPackageBlock root packageName then EmptyString
              else "Failed to process " +:+ key +:+ ": ")
         +:+ "Failed to process field in " +:+ name +:+ ": "
         +:+ noTypeMessage bad).
Proof.
  intros Hn Hg Hr Hb root.
  pose proof (fun g => processMessageType_no_type name good more bad oneofs nested g
                         Hn Hg Hr Hb) as M.
  assert (L : forall g,
             processNamespace parser root EmptyString g
             = inl ("Failed to process " +:+ key +:+ ": "
                    +:+ "Failed to process field in " +:+ name +:+ ": "
                    +:+ noTypeMessage bad)).
  { intros g. subst root. cbn [processNamespace processLoop]. rewrite M.
    unfold wrap, ProtoParser.wrap, andThen. now rewrite !append_assoc. }
  assert (F : forall g,
             processNamespaceFlat parser root g
             = inl ("Failed to process field in " +:+ name +:+ ": "
                    +:+ noTypeMessage bad)).
  { intros g. unfold processNamespaceFlat. subst root.
    cbn [collectAllContent collectAllLoop].
    match goal with
    | |- context [collectAllLoop rest ?acc'] =>
        destruct (collectAllLoop_messages rest acc') as [others ->]
    end.
    cbn [appendContent messages app forEach]. rewrite M. reflexivity. }
  assert (R : processRoot parser root packageName reset
              = inl ((if opensPackageBlock root packageName then EmptyString
                      else "Failed to process " +:+ key +:+ ": ")
                     +:+ "Failed to process field in " +:+ name +:+ ": "
                     +:+ noTypeMessage bad)).
  { unfold processRoot, opensPackageBlock.
    destruct packageName as [package|]; [|now rewrite L, !append_assoc].
    destruct (truthy package && Str.trimmed_truthy package); cbn [andb];
      [|now rewrite L, !append_assoc].
    assert (T : targetNamespace (analyzePackageStructure root package) = root).
    { unfold analyzePackageStructure. cbn [targetNamespace].
      now rewrite (proj1 findContentNamespace_same root). }
    rewrite T.
    destruct (shouldUsePackage (analyzePackageStructure root package));
      [now rewrite F | now rewrite L, !append_assoc]. }
  unfold generateFromRoot, generate. subst root. cbv zeta in R |- *.
  rewrite R. reflexivity.
Qed.

Lemma enumValues_eq : forall (values : list (string * Z)) g,
  fold_left (fun g entry =>
               let enumValue := fst entry in
               if truthy enumValue then push ("  " +:+ enumValue) g else g)
            values g
  = mk (lines g
        ++ List.map valueLine (List.filter truthy (List.map fst values)))%list
       (relations g) (relationSet g).
Proof.
  induction values as [|[enumValue number] values IH]; intros g.
  - cbn. rewrite app_nil_r. now destruct g.
  - cbn [fold_left List.map List.filter fst]. cbv zeta. rewrite IH.
    destruct (truthy enumValue); [|reflexivity].
    cbn. now rewrite <- app_assoc.
Qed.

(** X7. An enumeration with a name and a table of values always gives its
    block: the opening line, one line per value with a non-empty name, in
    the order of the table, and the closing brace; it adds no
    relationship, and the name of the enclosing message plays no part.
    Without a name or without a table the call throws. *)
Theorem enum_block
    (name parentName : string) (values : option (list (string * Z)))
    (g : PlantUMLGenerator.t) :
  match values with
  | Some table =>
      if truthy name then
        processEnumType name values parentName g
        = inr (mk (lines g ++ ["enum " +:+ name +:+ " {"]
                   ++ List.map valueLine
                        (List.filter truthy (List.map fst table))
                   ++ ["}"])%list
                  (relations g) (relationSet g))
      else returns (processEnumType name values parentName g) = false
  | None => returns (processEnumType name values parentName g) = false
  end.
Proof.
  unfold processEnumType.
  destruct values as [table|]; destruct (truthy name); cbn [negb]; try reflexivity.
  rewrite enumValues_eq. unfold push. cbn [lines relations relationSet].
  rewrite <- !app_assoc. reflexivity.
Qed.

End BlockFacts.

Section BlockWitnesses.
Import JS Protobuf PlantUMLGenerator ResolverSpec EmitSpec.
Local Open Scope string_scope.

Lemma field_without_type_is_fatal_witness :
  generateFromRoot ProtoParser.new
    (Namespace (Some (ECons "Order"
       (Type_ "Order"
          [Examples.plainField "id" "string";
           Examples.plainField "total" EmptyString] None None) ENil)))
    None
  = inl ("Failed to process protobuf namespace: Failed to process Order: "
         +:+ "Failed to process field in Order: Field total has no type defined")
  /\ generateFromRoot ProtoParser.new
       (Namespace (Some (ECons "Order"
          (Type_ "Order"
             [Examples.plainField "id" "string";
              Examples.plainField "total" EmptyString] None None) ENil)))
       (Some "com.example.shop")
     = inl ("Failed to process protobuf namespace: "
            +:+ "Failed to process field in Order: Field total has no type defined").
Proof.
  assert (G : forall field,
             In (Some field) [Examples.plainField "id" "string"] ->
             Field.reserved field = false -> truthy (Field.type field) = true).
  { intros field [[= <-]|[]] _. reflexivity. }
  split.
  - exact (field_without_type_is_fatal ProtoParser.new "Order" "Order"
             [Examples.plainField "id" "string"] []
             (Field.mk "total" EmptyString false false None None EmptyString false)
             None None ENil None eq_refl G eq_refl eq_refl).
  - exact (field_without_type_is_fatal ProtoParser.new "Order" "Order"
             [Examples.plainField "id" "string"] []
             (Field.mk "total" EmptyString false false None None EmptyString false)
             None None ENil (Some "com.example.shop") eq_refl G eq_refl eq_refl).
Defined.

Lemma one_line_per_field_witness :
  exists g',
    processMessageType ProtoParser.new
      (Type_ "User"
         [Examples.plainField "first_name" "string"; None;
          Some (Field.mk "old" "int32" false false None None EmptyString true);
          Examples.repeatedField "tags" "string"] None None)
      reset = inr g'
    /\ lines g'
       = (header
          ++ ["object User {"; "  firstName : string"; "  tags : string [ ]"; "}"])%list.
Proof.
  apply (one_line_per_field ProtoParser.new "User"
           [Examples.plainField "first_name" "string"; None;
            Some (Field.mk "old" "int32" false false None None EmptyString true);
            Examples.repeatedField "tags" "string"] None reset eq_refl).
  intros field [[= <-]|[[=]|[[= <-]|[[= <-]|[]]]]] R;
    solve [reflexivity | discriminate R].
Defined.

End BlockWitnesses.

(** ** Further properties: services and nested enumerations *)

Section ServiceFacts.
Import JS Protobuf PlantUMLGenerator ResolverSpec EmitSpec Declared.
Local Open Scope string_scope.

Lemma relations_addRelation relation g x :
  deduplicated g ->
  In x (relations (addRelation relation g))
  <-> In x (relations g) \/ x = relation.
Proof.
  intros [_ Hset]. unfold addRelation, ProtoParser.has.
  case_bool_decide as Hin; cbn.
  - split; [auto|]. intros [H| ->]; [exact H | now apply Hset].
  - rewrite in_app_iff. cbn. intuition congruence.
Qed.

Lemma processMethods_spec : forall methods serviceName g,
  deduplicated g ->
  forallb (fun entry => validMethod (snd entry)) methods = true ->
  exists g',
    processMethods serviceName methods g = inr g'
    /\ deduplicated g'
    /\ lines g' = (lines g ++ List.map methodLine (theMethods methods))%list
    /\ forall x,
         In x (relations g')
         <-> In x (relations g)
             \/ exists method,
                  In method (theMethods methods)
                  /\ (x = serviceEdge serviceName (requestOf method)
                      \/ x = serviceEdge serviceName (responseOf method)).
Proof.
  induction methods as [|[key method] methods IH]; intros serviceName g Hd Hv.
  - exists g. split; [reflexivity|]. split; [exact Hd|].
    split; [now rewrite app_nil_r|].
    intros x. split; [auto|]. intros [H|(m & [] & _)]. exact H.
  - cbn [forallb snd] in Hv. apply andb_prop in Hv as [Hm Hv].
    destruct method as [method|]; [|discriminate]. cbn [validMethod] in Hm.
    cbn [processMethods snd]. unfold processMethod at 1. rewrite Hm. cbn [negb].
    fold (requestOf method). fold (responseOf method).
    fold (serviceEdge serviceName (requestOf method)).
    fold (serviceEdge serviceName (responseOf method)).
    set (line := "  " +:+ Method.name method +:+ "(" +:+ requestOf method
                 +:+ ") : " +:+ responseOf method).
    set (g1 := addRelation (serviceEdge serviceName (requestOf method)) (push line g)).
    set (g2 := addRelation (serviceEdge serviceName (responseOf method)) g1).
    assert (D0 : deduplicated (push line g)) by exact Hd.
    assert (D1 : deduplicated g1)
      by (eapply step_deduplicated; [apply step_relation | exact D0]).
    assert (D2 : deduplicated g2)
      by (eapply step_deduplicated; [apply step_relation | exact D1]).
    destruct (IH serviceName g2 D2 Hv) as (g' & E & D' & L & R).
    exists g'. cbn [andThen]. split; [exact E|]. split; [exact D'|]. split.
    + rewrite L. unfold g2, g1. rewrite !lines_addRelation. cbn.
      now rewrite <- app_assoc.
    + intros x. rewrite R. unfold g2.
      rewrite (relations_addRelation _ g1 x D1). unfold g1.
      rewrite (relations_addRelation _ (push line g) x D0).
      cbn [theMethods omap snd]. cbn [relations push]. split.
      * intros [[[H|H]|H]|(m & Hin & Hx)].
        -- now left.
        -- right. exists method. split; [now left | now left].
        -- right. exists method. split; [now left | now right].
        -- right. exists m. split; [now right | exact Hx].
      * intros [H|(m & [<-|Hin] & Hx)].
        -- auto.
        -- destruct Hx as [->| ->]; auto.
        -- right. exists m. auto.
Qed.

(** X8. A service with a name whose methods all have a name gives its
    block: the opening line, one line [name(request) : response] per
    method in order, with [Unknown] for a missing type, and the closing
    brace.  The relationships afterwards are the ones before and, for
    each method, the association edges from the service to the request
    and to the response type, nothing else, and none of them twice. *)
Theorem service_block
    (name : string) (methods : list (string * option Method.t))
    (g : PlantUMLGenerator.t) :
  truthy name = true ->
  forallb (fun entry => validMethod (snd entry)) methods = true ->
  deduplicated g ->
  exists g',
    processServiceType name (Some methods) g = inr g'
    /\ lines g'
       = (lines g ++ ["stereotype " +:+ name +:+ " {"]
          ++ List.map methodLine (theMethods methods) ++ ["}"])%list
    /\ deduplicated g'
    /\ forall x,
         In x (relations g')
         <-> In x (relations g)
             \/ exists method,
                  In method (theMethods methods)
                  /\ (x = serviceEdge name (requestOf method)
                      \/ x = serviceEdge name (responseOf method)).
Proof.
  intros Hn Hv Hd. unfold processServiceType. rewrite Hn. cbn [negb].
  destruct (processMethods_spec methods name
              (push ("stereotype " +:+ name +:+ " {") g) Hd Hv)
    as (g1 & E & D & L & R).
  rewrite E. cbn [andThen]. eexists. split; [reflexivity|].
  split; [|split; [exact D | exact R]].
  cbn. rewrite L. cbn. now rewrite <- !app_assoc.
Qed.

Lemma service_block_witness :
  exists g',
    processServiceType "UserService"
      (Some [("GetUser", Some (Method.mk "GetUser" "UserRequest" "User"));
             ("Ping", Some (Method.mk "Ping" EmptyString "User"))]) reset
    = inr g'
    /\ relations g'
       = [ "UserService --> UserRequest"; "UserService --> User";
           "UserService --> Unknown" ].
Proof.
  destruct (service_block "UserService"
              [("GetUser", Some (Method.mk "GetUser" "UserRequest" "User"));
               ("Ping", Some (Method.mk "Ping" EmptyString "User"))] reset
              eq_refl eq_refl deduplicated_reset) as (g' & E & _).
  exists g'. split; [exact E|].
  vm_compute in E. injection E as <-. reflexivity.
Defined.

(** A method without a name stops the generation of the service. *)
Lemma processMethods_invalid : forall methods serviceName g,
  forallb (fun entry => validMethod (snd entry)) methods = false ->
  processMethods serviceName methods g
  = inl ("Invalid method in service " +:+ serviceName).
Proof.
  induction methods as [|[key method] methods IH]; intros serviceName g Hv;
    [discriminate|].
  cbn [forallb snd] in Hv. cbn [processMethods snd].
  destruct (validMethod method) eqn:Hm.
  - cbn [andb] in Hv. destruct method as [method|]; [|discriminate].
    cbn [validMethod] in Hm. unfold processMethod at 1. rewrite Hm.
    cbn [negb andThen]. now apply IH.
  - unfold processMethod at 1. destruct method as [method|]; [|reflexivity].
    cbn [validMethod] in Hm. rewrite Hm. reflexivity.
Qed.

Lemma processMethods_valid : forall methods serviceName g,
  forallb (fun entry => validMethod (snd entry)) methods = true ->
  returns (processMethods serviceName methods g) = true.
Proof.
  induction methods as [|[key method] methods IH]; intros serviceName g Hv;
    [reflexivity|].
  cbn [forallb snd] in Hv. apply andb_prop in Hv as [Hm Hv].
  destruct method as [method|]; [|discriminate]. cbn [validMethod] in Hm.
  cbn [processMethods snd]. unfold processMethod at 1. rewrite Hm.
  cbn [negb andThen]. now apply IH.
Qed.

(** X9. A service throws exactly when it has no name, no table of
    methods, or a method that is null or has no name; for a bad method the
    message names the service. *)
Theorem service_throws_iff_invalid
    (name : string) (methods : option (list (string * option Method.t)))
    (g : PlantUMLGenerator.t) :
  returns (processServiceType name methods g)
  = truthy name
    && match methods with
       | Some table => forallb (fun entry => validMethod (snd entry)) table
       | None => false
       end
  /\ match methods with
     | Some table =>
         if truthy name
            && negb (forallb (fun entry => validMethod (snd entry)) table)
         then processServiceType name methods g
              = inl ("Invalid method in service " +:+ name)
         else True
     | None => True
     end.
Proof.
  unfold processServiceType.
  destruct (truthy name) eqn:Hn; cbn [negb andb];
    [|split; [reflexivity | now destruct methods]].
  destruct methods as [table|]; [|split; reflexivity].
  destruct (forallb (fun entry => validMethod (snd entry)) table) eqn:Hv;
    cbn [negb].
  - split; [|exact I].
    pose proof (processMethods_valid table name
                  (push ("stereotype " +:+ name +:+ " {") g) Hv) as R.
    now destruct (processMethods name table _).
  - rewrite processMethods_invalid by exact Hv. split; reflexivity.
Qed.

End ServiceFacts.

(** ** Further properties: messages with nested enumerations, packages *)

Section LayoutFacts.
Import JS Protobuf PlantUMLGenerator ResolverSpec EmitSpec Declared.
Local Open Scope string_scope.

Lemma processLoop_enum_lines parser : forall es parentName g g',
  processLoop parser es parentName g = inr g' ->
  exists body,
    lines g' = (lines g ++ body)%list
    /\ forall name values,
         isEntry (Enum name values) es -> In ("enum " +:+ name +:+ " {") body.
Proof.
  induction es as [|key value rest IH]; intros parentName g g' H.
  - injection H as <-. exists []. split; [now rewrite app_nil_r | intros ? ? []].
  - cbn [processLoop] in H.
    apply andThen_inr in H as (g1 & H1 & H2). apply wrap_inr in H1.
    destruct (IH _ _ _ H2) as (b2 & L2 & I2).
    assert (S1 : rtc step g g1).
    { destruct value as [|[es|]|name fieldsArray oneofs o|name values|name methods o].
      - injection H1 as <-. apply rtc_refl.
      - eapply (proj2 (proj1 (steps_tree parser) _)), H1.
      - injection H1 as <-. apply rtc_refl.
      - eapply (proj1 (proj1 (steps_tree parser) _)), H1.
      - eapply steps_processEnumType, H1.
      - eapply steps_processServiceType, H1. }
    destruct (steps_extends _ _ S1) as [_ [b1 L1]].
    exists (b1 ++ b2)%list. split; [rewrite L2, L1; now rewrite <- app_assoc|].
    intros name values [->|Hin].
    + apply in_app_iff. left.
      assert (B : exists tail,
                 lines g1 = (lines g ++ ("enum " +:+ name +:+ " {") :: tail)%list).
      { unfold processEnumType in H1.
        destruct (negb (truthy name)); [discriminate|].
        destruct values as [table|]; [|discriminate].
        injection H1 as <-. rewrite enumValues_eq. cbn [lines push].
        rewrite <- !app_assoc. eexists. reflexivity. }
      destruct B as [tail B]. rewrite B in L1.
      apply app_inv_head in L1. subst b1. now left.
    + apply in_app_iff. right. eapply I2, Hin.
Qed.

(** X10. A message that holds at least one enumeration among its nested
    entries is written inside a component titled with its name followed
    by [Types]: the component line comes first, the object line next, the
    closing brace of the component last; and each enumeration nested
    directly in the message has its block in between under its own name,
    without the name of the message in front. *)
Theorem nested_enum_in_component
    (parser : ProtoParser.t) (name : string)
    (fieldsArray : list (option Field.t))
    (oneofs : option (list (string * OneOf.t))) (es : entries)
    (g g' : PlantUMLGenerator.t) :
  some isEnum es = true ->
  processMessageType parser (Type_ name fieldsArray oneofs (Some es)) g = inr g' ->
  exists body,
    lines g'
    = (lines g
       ++ [ "component " +:+ dquote +:+ name +:+ " Types" +:+ dquote +:+ " {";
            "object " +:+ name +:+ " {" ]
       ++ body ++ ["}"])%list
    /\ forall enumName values,
         isEntry (Enum enumName values) es ->
         In ("enum " +:+ enumName +:+ " {") body.
Proof.
  intros He H. cbn [processMessageType] in H. rewrite He in H.
  destruct (negb (truthy name)); [discriminate|].
  apply andThen_inr in H as (g1 & H1 & H).
  apply andThen_inr in H as (g2 & H2 & H3). injection H3 as <-.
  destruct (steps_extends _ _ (steps_processFields parser _ _ _ _ H1))
    as [_ [b1 L1]].
  destruct (processLoop_enum_lines parser _ _ _ _ H2) as (b3 & L3 & I3).
  destruct (steps_extends _ _
              (steps_processOneofNotes name oneofs (push "}" g1)))
    as [_ [b2 L2]].
  exists (b1 ++ ["}"] ++ b2 ++ b3)%list. split.
  - cbn [lines push]. rewrite L3, L2. cbn [lines push]. rewrite L1.
    cbn [lines push]. now rewrite <- !app_assoc.
  - intros enumName values Hin. rewrite !in_app_iff. right. right. right.
    eapply I3, Hin.
Qed.

Lemma nested_enum_in_component_witness :
  exists body,
    (header
     ++ [ "component " +:+ dquote +:+ "Task Types" +:+ dquote +:+ " {";
          "object Task {"; "  state : State"; "}";
          "enum State {"; "  OPEN"; "}"; "}" ])%list
    = (lines reset
       ++ [ "component " +:+ dquote +:+ "Task" +:+ " Types" +:+ dquote +:+ " {";
            "object " +:+ "Task" +:+ " {" ]
       ++ body ++ ["}"])%list
    /\ forall enumName values,
         isEntry (Enum enumName values)
                 (ECons "State" (Enum "State" (Some [("OPEN", 0)])) ENil) ->
         In ("enum " +:+ enumName +:+ " {") body.
Proof.
  apply (nested_enum_in_component
           (Examples.parserOf Examples.nestedStatus) "Task"
           [Examples.plainField "state" "State"] None
           (ECons "State" (Enum "State" (Some [("OPEN", 0)])) ENil)
           reset
           (mk (header
                ++ [ "component " +:+ dquote +:+ "Task Types" +:+ dquote +:+ " {";
                     "object Task {"; "  state : State"; "}";
                     "enum State {"; "  OPEN"; "}"; "}" ])%list
               [ "Task --* " +:+ CONFIG.UML.CARDINALITY.REQUIRED +:+ " State" ]
               {[ "Task --* " +:+ CONFIG.UML.CARDINALITY.REQUIRED +:+ " State" ]})).
  - reflexivity.
  - vm_compute. reflexivity.
Defined.

Lemma append_nil_r (a : string) : a +:+ EmptyString = a.
Proof.
  induction a as [|c a IH]; [reflexivity|].
  change (String c (a +:+ EmptyString) = String c a). f_equal. exact IH.
Qed.

Lemma split_dot_not_nil : forall s acc, Str.split_dot acc s <> [].
Proof.
  induction s as [|c s IH]; intros acc; cbn; [discriminate|].
  destruct (Ascii.eqb c "."%char); [discriminate | apply IH].
Qed.

Lemma join_cons sep x l :
  l <> [] -> Str.join sep (x :: l) = x +:+ sep +:+ Str.join sep l.
Proof. destruct l; [congruence | reflexivity]. Qed.

(** Joining the segments of a path with dots gives the path back. *)
Lemma join_split_dot : forall s acc,
  Str.join "." (Str.split_dot acc s) = acc +:+ s.
Proof.
  induction s as [|c s IH]; intros acc.
  - cbn. now rewrite append_nil_r.
  - cbn [Str.split_dot]. destruct (Ascii.eqb_spec c "."%char) as [->|Hc].
    + rewrite join_cons by apply split_dot_not_nil. now rewrite IH.
    + rewrite IH, append_assoc. reflexivity.
Qed.

Lemma split_dot_hasDot : forall s acc,
  (2 <= length (Str.split_dot acc s))%nat -> hasDot s = true.
Proof.
  induction s as [|c s IH]; intros acc H; [cbn in H; lia|].
  cbn [Str.split_dot] in H. cbn [hasDot].
  destruct (Ascii.eqb c "."%char); [reflexivity|]. eapply IH, H.
Qed.

(** The bytes [trim] removes are white space of ASCII or bytes of a
    sequence of two or three bytes above 127; none of them is a dot. *)
Lemma high_not_dot a :
  (128 <= nat_of_ascii a)%nat -> Ascii.eqb a "."%char = false.
Proof.
  intros H. destruct (Ascii.eqb_spec a "."%char) as [->|]; [|reflexivity].
  vm_compute in H. lia.
Qed.

Lemma isSpace_not_dot a :
  Str.isSpace a = true -> Ascii.eqb a "."%char = false.
Proof.
  intros H. destruct (Ascii.eqb_spec a "."%char) as [->|]; [|reflexivity].
  discriminate H.
Qed.

Lemma space2_high a b :
  Str.space2 a b = true ->
  (128 <= nat_of_ascii a)%nat /\ (128 <= nat_of_ascii b)%nat.
Proof.
  unfold Str.space2. rewrite andb_true_iff, !Nat.eqb_eq. lia.
Qed.

Lemma space3_high a b c :
  Str.space3 a b c = true ->
  (128 <= nat_of_ascii a)%nat /\ (128 <= nat_of_ascii b)%nat
  /\ (128 <= nat_of_ascii c)%nat.
Proof.
  unfold Str.space3. cbv zeta.
  rewrite !orb_true_iff, !andb_true_iff, !orb_true_iff, !andb_true_iff,
          !Nat.eqb_eq, !Nat.leb_le.
  lia.
Qed.

Lemma trimStart_hasDot : forall n s,
  (String.length s <= n)%nat -> hasDot s = true ->
  hasDot (Str.trimStart s) = true.
Proof.
  induction n as [|n IH]; intros s Hn H.
  - destruct s; [discriminate H | cbn in Hn; lia].
  - destruct s as [|a rest]; [discriminate H|].
    cbn [String.length] in Hn. cbn [Str.trimStart].
    destruct (Str.isSpace a) eqn:Sa.
    + apply IH; [lia|]. cbn [hasDot] in H.
      now rewrite (isSpace_not_dot _ Sa) in H.
    + destruct rest as [|b rest2]; [exact H|].
      cbn [String.length] in Hn.
      destruct (Str.space2 a b) eqn:S2.
      * apply IH; [lia|]. destruct (space2_high _ _ S2) as [Ha Hb].
        cbn [hasDot] in H.
        now rewrite (high_not_dot _ Ha), (high_not_dot _ Hb) in H.
      * destruct rest2 as [|c rest3]; [exact H|].
        cbn [String.length] in Hn.
        destruct (Str.space3 a b c) eqn:S3; [|exact H].
        apply IH; [lia|]. destruct (space3_high _ _ _ S3) as (Ha & Hb & Hc).
        cbn [hasDot] in H.
        now rewrite (high_not_dot _ Ha), (high_not_dot _ Hb),
                    (high_not_dot _ Hc) in H.
Qed.

(** A text with a dot is not empty after [trim]. *)
Lemma hasDot_trim s : hasDot s = true -> truthy (Str.trim s) = true.
Proof.
  intros H. unfold Str.trim.
  pose proof (trimStart_hasDot _ s (le_n _) H) as H1.
  destruct (Str.trimStart s) as [|a rest]; [discriminate H1|].
  pose proof (trimStart_hasDot _ _ (le_n _) H1) as H2.
  change (Str.trimEnd (String a rest))
    with (if truthy (Str.trimStart (String a rest))
          then String a (Str.trimEnd rest) else EmptyString).
  destruct (Str.trimStart (String a rest)); [discriminate H2 | reflexivity].
Qed.

Lemma split_dot_two : forall s acc,
  (2 <= length (Str.split_dot acc s))%nat ->
  truthy s = true /\ Str.trimmed_truthy s = true.
Proof.
  intros s acc H. apply split_dot_hasDot in H.
  split; [now destruct s | now apply hasDot_trim].
Qed.

(** X11. A package path of three to six segments always gets the package
    block, whatever the tree holds: the line that opens the block follows
    the header and shows the path as it was given, the closing brace
    follows the blocks, and the relationships come after the block, before
    the end marker. *)
Theorem mid_sized_package_wrapped
    (parser : ProtoParser.t) (root : node) (packageName : string)
    (g : PlantUMLGenerator.t) :
  (3 <= length (Str.split packageName) <= 6)%nat ->
  generate parser root (Some packageName) = inr g ->
  exists body,
    lines g
    = (header ++ [packageLine packageName] ++ body ++ ["}"]
       ++ relations g ++ ["@enduml"])%list.
Proof.
  intros [H3 H6] H. unfold generate in H.
  assert (H' : exists g1,
             processRoot parser root (Some packageName) reset = inr g1
             /\ g = push "@enduml"
                      (fold_left (fun g relation => push relation g)
                                 (relations g1) g1)).
  { destruct root; try discriminate;
      apply andThen_inr in H as (g1 & H1 & E); apply wrap_inr in H1;
      injection E as <-; eauto. }
  clear H. destruct H' as (g1 & H1 & ->).
  unfold processRoot in H1.
  destruct (split_dot_two packageName EmptyString ltac:(unfold Str.split in H3; lia))
    as [T1 T2].
  rewrite T1, T2 in H1. cbn [andb] in H1.
  assert (Hs : shouldUsePackage (analyzePackageStructure root packageName) = true).
  { unfold analyzePackageStructure, shouldUsePackageBlock. cbn [shouldUsePackage].
    destruct (_ <? _)%nat; [reflexivity|].
    destruct (Str.includes _ _); [reflexivity|].
    destruct (Nat.leb_spec 3 (length (Str.split packageName))); [|lia].
    destruct (Nat.leb_spec (length (Str.split packageName)) 6); [reflexivity | lia]. }
  assert (Hd : displayName (analyzePackageStructure root packageName) = packageName).
  { unfold analyzePackageStructure in Hs |- *. cbn [displayName shouldUsePackage] in Hs |- *.
    rewrite Hs. unfold getOptimalPackageName. cbn [negb].
    destruct (Nat.leb_spec (length (Str.split packageName)) 6); [|lia].
    unfold Str.split. apply join_split_dot. }
  rewrite Hs, Hd in H1.
  apply andThen_inr in H1 as (g2 & H2 & E). injection E as <-.
  destruct (steps_extends _ _ (steps_processNamespaceFlat parser _ _ _ H2))
    as [_ [body L]].
  exists body. rewrite pushAll_eq. cbn [lines relations push]. rewrite L.
  cbn [lines push reset]. now rewrite <- !app_assoc.
Qed.

Lemma mid_sized_package_wrapped_witness :
  exists body,
    lines (Diagrams.diagram Examples.userAddress (Some "com.example.shop"))
    = (header ++ [packageLine "com.example.shop"] ++ body ++ ["}"]
       ++ relations (Diagrams.diagram Examples.userAddress (Some "com.example.shop"))
       ++ ["@enduml"])%list.
Proof.
  apply (mid_sized_package_wrapped
           (Examples.parserOf Examples.userAddress) Examples.userAddress).
  - vm_compute. lia.
  - vm_compute. reflexivity.
Defined.

End LayoutFacts.

Section NamespaceFacts.
Import JS Protobuf PlantUMLGenerator ResolverSpec EmitSpec Declared.
Local Open Scope string_scope.

(** X12. The namespace the package analysis hands to the emitter is
    always the root it was given: [findContentNamespace] returns its
    argument for every tree and never a namespace below it. *)
Theorem content_namespace_is_root (root : node) (packageName : string) :
  findContentNamespace root = (root, true)
  /\ targetNamespace (analyzePackageStructure root packageName) = root.
Proof.
  split; [apply (proj1 findContentNamespace_same)|].
  unfold analyzePackageStructure. cbn [targetNamespace].
  now rewrite (proj1 findContentNamespace_same).
Qed.

Lemma traverseLoop_declarations : forall es n,
  declarationsOnly es = true -> traverseLoop es n = n.
Proof.
  induction es as [|key value rest IH]; intros n H; [reflexivity|].
  cbn [declarationsOnly] in H. cbn [traverseLoop].
  destruct value as [|[?|]|? ? ? ?|? ?|? ? [?|]]; try discriminate; now apply IH.
Qed.

Lemma some_isContent_chain part chain :
  some isContent (ECons part (Namespace (Some chain)) ENil) = false.
Proof. reflexivity. Qed.

Lemma traverse_chain : forall parts declarations n,
  declarationsOnly declarations = true ->
  traverse (Namespace (Some (packageChain parts declarations))) n
  = (n + if some isContent declarations then 1 else 0)%nat.
Proof.
  induction parts as [|part parts IH]; intros declarations n H.
  - cbn [packageChain traverse]. unfold hasDirectContent. cbn [nested].
    rewrite traverseLoop_declarations by assumption.
    destruct (some isContent declarations); lia.
  - cbn [packageChain]. cbn [traverse]. unfold hasDirectContent. cbn [nested].
    rewrite some_isContent_chain. cbn [traverseLoop].
    now apply IH.
Qed.

(** X13. For the tree of one file, a chain of namespaces along the
    package with the messages, enumerations and services in the last one,
    at most one level holds content; the package block is then decided by
    the path alone: it is used exactly when the last segment in lower
    case is a word of the vocabulary or the path has three to eight
    segments. *)
Theorem single_file_package_rule
    (parts : list string) (declarations : entries) (packageName : string) :
  declarationsOnly declarations = true ->
  countContentAtLevels (Namespace (Some (packageChain parts declarations)))
  = (if some isContent declarations then 1 else 0)%nat
  /\ shouldUsePackage
       (analyzePackageStructure
          (Namespace (Some (packageChain parts declarations))) packageName)
     = Str.includes meaningfulNames
         (Str.toLowerCase (lastPart (Str.split packageName)))
       || ((3 <=? length (Str.split packageName))%nat
           && (length (Str.split packageName) <=? 8)%nat).
Proof.
  intros H.
  assert (C : countContentAtLevels (Namespace (Some (packageChain parts declarations)))
              = (if some isContent declarations then 1 else 0)%nat)
    by (unfold countContentAtLevels; now rewrite traverse_chain).
  split; [exact C|].
  unfold analyzePackageStructure. cbn [shouldUsePackage].
  unfold shouldUsePackageBlock. rewrite C.
  replace (1 <? (if some isContent declarations then 1 else 0))%nat with false
    by (now destruct (some isContent declarations)).
  destruct (Str.includes _ _); [reflexivity|]. cbn [orb].
  destruct (Nat.leb_spec 3 (length (Str.split packageName)));
    destruct (Nat.leb_spec (length (Str.split packageName)) 6);
    destruct (Nat.leb_spec (length (Str.split packageName)) 2);
    destruct (Nat.ltb_spec 8 (length (Str.split packageName)));
    destruct (Nat.leb_spec (length (Str.split packageName)) 8);
    cbn; try reflexivity; lia.
Qed.

Lemma single_file_package_rule_witness :
  shouldUsePackage
    (analyzePackageStructure
       (Namespace (Some (packageChain ["a"; "b"; "c"; "d"; "e"; "f"; "g"]
                                      (ECons "M" Examples.M ENil))))
       "a.b.c.d.e.f.g") = true.
Proof.
  rewrite (proj2 (single_file_package_rule ["a"; "b"; "c"; "d"; "e"; "f"; "g"]
                    (ECons "M" Examples.M ENil) "a.b.c.d.e.f.g" eq_refl)).
  vm_compute. reflexivity.
Defined.

End NamespaceFacts.

(** ** Further properties: the encoders and the image URL *)

Section EncoderExtras.
Import JS PlantumlEncoder EncoderSpec SpecDecoder UrlSpec.

(** X14. On bytes, decoding the output of [encode64] gives the input
    followed by the zero bytes that completed the last group, so
    [encode64] is one-to-one on byte streams of one length; streams of
    different lengths can share a token, as one zero byte and two zero
    bytes do. *)
Theorem encode64_invertible (data1 data2 : list Z) (s1 s2 : vars) :
  Forall isByte data1 -> Forall isByte data2 ->
  spec_decode64 (fst (encode64 data1 s1))
  = Some (data1 ++ repeat 0 (padding (length data1)))
  /\ (length data1 = length data2 ->
      fst (encode64 data1 s1) = fst (encode64 data2 s2) -> data1 = data2)
  /\ fst (encode64 [0] s1) = fst (encode64 [0; 0] s2).
Proof.
  intros H1 H2.
  assert (D : forall d s, Forall isByte d ->
                spec_decode64 (fst (encode64 d s))
                = Some (d ++ repeat 0 (padding (length d)))).
  { intros d s Hd. rewrite encode64_quads, quads_spec_encode64 by assumption.
    now apply decode64_encode64. }
  split; [now apply D|]. split; [|now rewrite !encode64_quads].
  intros Hlen Heq.
  pose proof (D data1 s1 H1) as E1. pose proof (D data2 s2 H2) as E2.
  rewrite Heq, E2, Hlen in E1. injection E1 as E1.
  symmetry. eapply app_inv_tail, E1.
Qed.

Lemma encode64_invertible_witness :
  spec_decode64 (fst (encode64 [80; 75] init)) = Some [80; 75; 0].
Proof.
  apply (proj1 (encode64_invertible [80; 75] [80; 75] init init
                  ltac:(repeat constructor; unfold isByte; lia)
                  ltac:(repeat constructor; unfold isByte; lia))).
Defined.

(** X15. The two encoders hand pako different things: the TypeScript
    encoder the bytes of the text, the tagged-result encoder a string
    whose code units are those bytes.  When pako compresses a string of
    ASCII characters as the bytes of its characters, the two encoders
    give the same token for every ASCII text that pako compresses: the
    tagged-result encoder returns the token of the TypeScript encoder,
    tagged [deflate], and writes nothing to the console, whatever
    js-deflate functions are in scope and whatever the module variables
    hold. *)
Theorem encoders_agree
    (deflateRawOfBytes : list Z -> result (list Z))
    (deflateRawOfString : jsstring -> result (list Z))
    (text : string) (compressed : list Z)
    (deflate zip_deflate : option (jsstring -> result jsstring)) (v : vars) :
  (forall s, isAscii s = true -> deflateRawOfString s = deflateRawOfBytes s) ->
  isAscii (textEncode text) = true ->
  deflateRawOfBytes (textEncode text) = inr compressed ->
  exists token,
    encode deflateRawOfBytes text = inr token
    /\ answer (PlantumlEncoderJs.compressAndEncode
                 (PlantumlEncoderJs.Env (Some deflateRawOfString) deflate zip_deflate)
                 text v)
       = ([], inr (PlantumlEncoderJs.Encoded token "deflate")).
Proof.
  intros Hs Ha H. unfold encode, compressAndEncode. rewrite H.
  eexists. split; [reflexivity|].
  unfold PlantumlEncoderJs.compressAndEncode, PlantumlEncoderJs.utf8String.
  cbn [PlantumlEncoderJs.pako_deflateRaw]. rewrite (Hs _ Ha), H.
  unfold PlantumlEncoderJs.encode64.
  destruct (encode64 _ v) as [enc v'] eqn:E.
  cbn [answer]. do 3 f_equal.
  rewrite (encode64_quads _ init), <- (encode64_quads _ v), E. reflexivity.
Qed.

Lemma utf8OfUnit_ascii : forall s,
  isAscii s = true -> flat_map StoredDeflate.utf8OfUnit s = s.
Proof.
  induction s as [|c s IH]; intros H; [reflexivity|].
  cbn [isAscii forallb] in H. apply andb_prop in H as [Hc H].
  apply andb_prop in Hc as [_ Hc].
  cbn [flat_map]. unfold StoredDeflate.utf8OfUnit at 1. rewrite Hc.
  cbn [app]. f_equal. now apply IH.
Qed.

Lemma encoders_agree_witness :
  exists token,
    encode StoredDeflate.deflateRaw "@startuml" = inr token
    /\ answer (PlantumlEncoderJs.compressAndEncode
                 (PlantumlEncoderJs.Env (Some StoredDeflate.deflateRawOfString)
                                        None None)
                 "@startuml" init)
       = ([], inr (PlantumlEncoderJs.Encoded token "deflate")).
Proof.
  apply (encoders_agree StoredDeflate.deflateRaw StoredDeflate.deflateRawOfString
           "@startuml"
           ([1; 9; 0; 246; 255] ++ textEncode "@startuml") None None init).
  - intros s H. unfold StoredDeflate.deflateRawOfString.
    now rewrite utf8OfUnit_ascii.
  - reflexivity.
  - vm_compute. reflexivity.
Defined.

Lemma answer_encode64 d v v' console tag :
  answer (let '(enc, v0) := PlantumlEncoderJs.encode64 d v in
          (console, inr (PlantumlEncoderJs.Encoded enc tag, v0)))
  = answer (let '(enc, v0) := PlantumlEncoderJs.encode64 d v' in
            (console, inr (PlantumlEncoderJs.Encoded enc tag, v0))).
Proof.
  unfold PlantumlEncoderJs.encode64.
  destruct (encode64 d v) as [e1 w1] eqn:E1.
  destruct (encode64 d v') as [e2 w2] eqn:E2.
  cbn [answer]. do 3 f_equal.
  change e1 with (fst (e1, w1)). change e2 with (fst (e2, w2)).
  rewrite <- E1, <- E2, !encode64_quads. reflexivity.
Qed.

(** X16. What a call of the tagged-result encoder returns, throws or logs
    does not depend on what earlier calls left in the module variables
    [r], [i], [c1] .. [c4]. *)
Theorem compressAndEncode_ignores_leftovers
    (e : PlantumlEncoderJs.env) (text : string) (v v' : vars) :
  answer (PlantumlEncoderJs.compressAndEncode e text v)
  = answer (PlantumlEncoderJs.compressAndEncode e text v').
Proof.
  assert (F : forall console,
             answer (PlantumlEncoderJs.fallback e (PlantumlEncoderJs.utf8String text) v console)
             = answer (PlantumlEncoderJs.fallback e (PlantumlEncoderJs.utf8String text) v' console)).
  { intros console. unfold PlantumlEncoderJs.fallback.
    destruct (PlantumlEncoderJs.deflate e) as [f|].
    - destruct (f _) as [err|d]; [reflexivity | apply answer_encode64].
    - destruct (PlantumlEncoderJs.zip_deflate e) as [f|]; [|reflexivity].
      destruct (f _) as [err|d]; [reflexivity | apply answer_encode64]. }
  unfold PlantumlEncoderJs.compressAndEncode.
  destruct (PlantumlEncoderJs.pako_deflateRaw e) as [f|]; [|apply F].
  destruct (f _) as [err|compressed]; [apply F | apply answer_encode64].
Qed.

Lemma hexval_table :
  forallb (fun b => hex_ok (Z.of_nat b)) (seq 0 256) = true.
Proof. vm_compute. reflexivity. Qed.

Lemma unhex_convertToHex : forall bytes,
  Forall isByte bytes ->
  spec_unhex (PlantumlEncoderJs.convertToHex bytes) = Some bytes.
Proof.
  induction 1 as [|b bytes Hb _ IH]; [reflexivity|].
  cbn [PlantumlEncoderJs.convertToHex].
  pose proof (all_below 256 hex_ok hexval_table b Hb) as T. unfold hex_ok in T.
  destruct (PlantumlEncoderJs.padStart2 _) as [|h [|l [|? ?]]]; try discriminate.
  cbn [app spec_unhex].
  destruct (spec_hexval h); [|discriminate].
  destruct (spec_hexval l); [|discriminate].
  apply Z.eqb_eq in T. now rewrite IH, T.
Qed.

(** X17. With no compression capability at all, the URL is the base URL,
    the marker [~h], and the text in hexadecimal; one warning is logged;
    and reading the hexadecimal digits two by two gives back the bytes of
    the text. *)
Theorem hex_fallback_marked_and_lossless
    (text : string) (baseUrl : jsstring) (v : vars) :
  PlantumlEncoderJs.generatePlantUMLImageUrl
    (PlantumlEncoderJs.Env None None None) text baseUrl v
  = ([ "No compression library available - using HEX encoding fallback"%string ],
     inr (baseUrl ++ lit "~h" ++ PlantumlEncoderJs.convertToHex (textEncode text), v))
  /\ spec_unhex (PlantumlEncoderJs.convertToHex (textEncode text))
     = Some (textEncode text).
Proof.
  split; [reflexivity|]. apply unhex_convertToHex, textEncode_bytes.
Qed.

Lemma afterLastSlash_no_slash : forall token acc,
  Forall (fun c => c <> 47) token -> afterLastSlash acc token = acc ++ token.
Proof.
  induction token as [|c token IH]; intros acc H; [now rewrite app_nil_r|].
  inversion H as [|? ? Hc Ht]; subst. cbn [afterLastSlash].
  destruct (Z.eqb_spec c 47); [contradiction|].
  rewrite IH by assumption. now rewrite <- app_assoc.
Qed.

Lemma afterLastSlash_app : forall pre acc token,
  Forall (fun c => c <> 47) token ->
  afterLastSlash acc (pre ++ 47 :: token) = token.
Proof.
  induction pre as [|c pre IH]; intros acc token H.
  - cbn. now rewrite afterLastSlash_no_slash.
  - cbn [app afterLastSlash]. destruct (c =? 47); now apply IH.
Qed.

Lemma alphabet_no_slash c : inAlphabet c -> c <> 47.
Proof.
  intros Hc ->. revert Hc. unfold inAlphabet. vm_compute. intuition discriminate.
Qed.

(** X18. When the text is compressed, the image URL is the endpoint, the
    image type, a slash and the token; the token holds no slash, so it is
    the last segment of the URL, and decoding that segment gives the text
    back.  When compression throws, the wrapped error of [encode] is what
    [generateImageUrl] throws. *)
Theorem image_url_carries_the_text
    (deflateRaw : list Z -> result (list Z))
    (inflateRaw : list Z -> option (list Z))
    (config : ImageGenerator.ImageConfig) (text : string) :
  (forall input out, Forall isByte input -> deflateRaw input = inr out ->
                     Forall isByte out) ->
  (forall input out k, Forall isByte input -> deflateRaw input = inr out ->
                       (k <= 2)%nat ->
                       inflateRaw (out ++ repeat 0 k) = Some input) ->
  match deflateRaw (textEncode text) with
  | inr _ =>
      exists token,
        ImageGenerator.generateImageUrl deflateRaw config text
        = inr (ImageGenerator.plantumlEndpoint config
               ++ ImageGenerator.imageTypeValue (ImageGenerator.imageType config)
               ++ lit "/" ++ token)
        /\ lastSegment
             (ImageGenerator.plantumlEndpoint config
              ++ ImageGenerator.imageTypeValue (ImageGenerator.imageType config)
              ++ lit "/" ++ token) = token
        /\ spec_decode inflateRaw token = Some text
  | inl error =>
      ImageGenerator.generateImageUrl deflateRaw config text
      = inl ("Pako compression failed: " +:+ dquote +:+ " " +:+ error)%string
  end.
Proof.
  intros Hbytes Hinflate.
  unfold ImageGenerator.generateImageUrl, encode, compressAndEncode.
  destruct (deflateRaw (textEncode text)) as [error|compressed] eqn:Hc;
    [reflexivity|].
  pose proof (Hbytes _ _ (textEncode_bytes text) Hc) as Hb.
  eexists. split; [reflexivity|].
  rewrite encode64_quads, fromCharCode_bytes by assumption. split.
  - unfold lastSegment. rewrite !app_assoc.
    change (lit "/" ++ quads compressed) with (47 :: quads compressed).
    rewrite <- app_assoc.
    apply afterLastSlash_app.
    eapply Forall_impl; [apply quads_alphabet | apply alphabet_no_slash].
  - rewrite quads_spec_encode64 by assumption.
    unfold spec_decode. rewrite decode64_encode64 by assumption.
    rewrite (Hinflate _ _ _ (textEncode_bytes text) Hc (padding_le _)).
    now rewrite textDecode_textEncode.
Qed.

Lemma image_url_carries_the_text_witness :
  exists token,
    ImageGenerator.generateImageUrl StoredDeflate.deflateRaw
      (ImageGenerator.mkConfig (lit "http://www.plantuml.com/plantuml/")
                               ImageGenerator.SVG) "@startuml"
    = inr (lit "http://www.plantuml.com/plantuml/" ++ lit "svg" ++ lit "/" ++ token)
    /\ lastSegment
         (lit "http://www.plantuml.com/plantuml/" ++ lit "svg" ++ lit "/" ++ token)
       = token
    /\ spec_decode StoredDeflate.inflateRaw token = Some "@startuml"%string.
Proof.
  apply (image_url_carries_the_text StoredDeflate.deflateRaw
           StoredDeflate.inflateRaw
           (ImageGenerator.mkConfig (lit "http://www.plantuml.com/plantuml/")
                                    ImageGenerator.SVG) "@startuml").
  - intros input out Hin Hout. exact (stored_bytes input out Hin Hout).
  - intros input out k _ Hout _. exact (stored_round_trip input out k Hout).
Defined.

End EncoderExtras.

(** ** Further properties: the library class *)

Section FacadeFacts.
Import JS Protobuf Proto2Diagram FacadeSpec Declared.
Local Open Scope string_scope.
Variable parse : string -> result (node * option string).
Variable env : PlantumlEncoderJs.env.

Lemma prefix_split : forall a s,
  String.prefix a s = true -> exists rest, s = a +:+ rest.
Proof.
  induction a as [|c a IH]; intros s H; [exists s; reflexivity|].
  destruct s as [|d s]; [discriminate|]. simpl in H.
  destruct (ascii_dec c d) as [->|]; [|discriminate].
  destruct (IH s H) as [rest ->]. exists rest. reflexivity.
Qed.

Lemma keywordHere_occurs s :
  keywordHere s = true ->
  exists keyword, In keyword protoKeywords /\ occursIn keyword s.
Proof.
  unfold keywordHere. rewrite existsb_exists.
  intros (keyword & Hin & H). apply andb_prop in H as [H _].
  destruct (prefix_split _ _ H) as [rest ->].
  exists keyword. split; [exact Hin|]. now exists EmptyString, rest.
Qed.

Lemma testKeywords_occurs : forall s prevWord,
  testKeywords prevWord s = true ->
  exists keyword, In keyword protoKeywords /\ occursIn keyword s.
Proof.
  induction s as [|c s IH]; intros prevWord H; [discriminate|].
  cbn [testKeywords] in H. apply orb_prop in H as [H|H].
  - apply andb_prop in H as [_ H]. now apply keywordHere_occurs.
  - destruct (IH _ H) as (keyword & Hin & before & after & ->).
    exists keyword. split; [exact Hin|]. now exists (String c before), after.
Qed.

(** What [trimStart] returns is the end of the text. *)
Lemma trimStart_suffix : forall n s,
  (String.length s <= n)%nat -> exists before, s = before +:+ Str.trimStart s.
Proof.
  induction n as [|n IH]; intros s Hn.
  - destruct s; [now exists EmptyString | cbn in Hn; lia].
  - destruct s as [|a rest]; [now exists EmptyString|].
    cbn [String.length] in Hn. cbn [Str.trimStart].
    destruct (Str.isSpace a).
    + destruct (IH rest ltac:(lia)) as [before E].
      exists (String a before). rewrite E at 1. reflexivity.
    + destruct rest as [|b rest2]; [now exists EmptyString|].
      cbn [String.length] in Hn.
      destruct (Str.space2 a b).
      * destruct (IH rest2 ltac:(lia)) as [before E].
        exists (String a (String b before)). rewrite E at 1. reflexivity.
      * destruct rest2 as [|c rest3]; [now exists EmptyString|].
        cbn [String.length] in Hn.
        destruct (Str.space3 a b c); [|now exists EmptyString].
        destruct (IH rest3 ltac:(lia)) as [before E].
        exists (String a (String b (String c before))). rewrite E at 1. reflexivity.
Qed.

Lemma trimEnd_prefix : forall s, exists after, s = Str.trimEnd s +:+ after.
Proof.
  induction s as [|a s [after IH]]; [now exists EmptyString|].
  cbn [Str.trimEnd]. destruct (truthy _).
  - exists after. rewrite IH at 1. reflexivity.
  - now exists (String a s).
Qed.

Lemma occursIn_trim keyword s :
  occursIn keyword (Str.trim s) -> occursIn keyword s.
Proof.
  intros (before & after & E). unfold Str.trim in E.
  destruct (trimStart_suffix _ s (le_n _)) as [b1 E1].
  destruct (trimEnd_prefix (Str.trimStart s)) as [a1 E2].
  exists (b1 +:+ before), (after +:+ a1).
  rewrite E1 at 1. rewrite E2 at 1. rewrite E.
  now rewrite !append_assoc.
Qed.

(** What [validateProtoContent] accepts is a string that is not empty
    after [trim] and holds a keyword. *)
Lemma validateProtoContent_accepts protoContent verdict :
  validateProtoContent protoContent = inr verdict ->
  verdict = true
  /\ exists content keyword,
       protoContent = VString content
       /\ truthy (Str.trim content) = true
       /\ In keyword protoKeywords /\ occursIn keyword content.
Proof.
  unfold validateProtoContent.
  destruct protoContent as [| | | | |content| | |]; try discriminate.
  cbv zeta. destruct (truthy (Str.trim content)) eqn:T; cbn [negb]; [|discriminate].
  destruct (isValidProtoSyntax (Str.trim content)) eqn:V; cbn [negb]; [|discriminate].
  intros [= <-]. split; [reflexivity|].
  unfold isValidProtoSyntax in V. apply andb_prop in V as [V _].
  destruct (testKeywords_occurs _ _ V) as (keyword & Hin & Hocc).
  exists content, keyword.
  split; [reflexivity|]. split; [exact T|]. split; [exact Hin|].
  now apply occursIn_trim.
Qed.

(** The four ways [validateProtoContent] refuses. *)
Lemma validateProtoContent_refuses protoContent message :
  validateProtoContent protoContent = inl message ->
  match protoContent with
  | VUndefined | VNull => message = "Proto content cannot be null or undefined"
  | VString content =>
      if truthy (Str.trim content)
      then message
           = "Proto content does not appear to contain valid protobuf syntax"
      else message
           = "Proto content cannot be empty or contain only whitespace"
  | other =>
      message = "Proto content must be a string, received " +:+ typeof other
  end.
Proof.
  unfold validateProtoContent.
  destruct protoContent as [| | | | |content| | |]; try (intros [= <-]; reflexivity).
  cbv zeta. destruct (truthy (Str.trim content)); cbn [negb];
    [|intros [= <-]; reflexivity].
  destruct (isValidProtoSyntax (Str.trim content)); cbn [negb];
    [discriminate | intros [= <-]; reflexivity].
Qed.

(** X19. Content that [validateProtoContent] accepts is a string that
    contains one of the eight keywords; it accepts with [true] only.
    Null and undefined content, content that is not a string, and a string
    that is empty or white space only, are refused with their own
    messages, the one for a value that is not a string naming its
    [typeof]; every other string that is refused gets the message about
    the syntax. *)
Theorem validated_content_has_keyword (protoContent : value) :
  match validateProtoContent protoContent with
  | inr verdict =>
      verdict = true
      /\ exists content keyword,
           protoContent = VString content
           /\ In keyword protoKeywords /\ occursIn keyword content
  | inl message =>
      match protoContent with
      | VUndefined | VNull =>
          message = "Proto content cannot be null or undefined"
      | VString content =>
          if truthy (Str.trim content)
          then message
               = "Proto content does not appear to contain valid protobuf syntax"
          else message
               = "Proto content cannot be empty or contain only whitespace"
      | other =>
          message = "Proto content must be a string, received " +:+ typeof other
          /\ typeof other <> "string"
      end
  end.
Proof.
  destruct (validateProtoContent protoContent) as [message|verdict] eqn:E.
  - apply validateProtoContent_refuses in E.
    destruct protoContent; try exact E; (split; [exact E | discriminate]).
  - apply validateProtoContent_accepts in E
      as (-> & content & keyword & -> & _ & Hin & Hocc).
    split; [reflexivity|]. now exists content, keyword.
Qed.

Lemma generateFromRoot_message parser root packageName message :
  PlantUMLGenerator.generateFromRoot parser root packageName = inl message ->
  root = Null
  \/ String.prefix "Failed to process protobuf namespace: " message = true.
Proof.
  unfold PlantUMLGenerator.generateFromRoot, PlantUMLGenerator.generate.
  intros H.
  destruct root; [now left| | | |]; right;
    (destruct (PlantUMLGenerator.wrap _ _ _) as [inner|g] eqn:E; cbn in H;
     [|discriminate]);
    injection H as <-;
    apply wrap_inl in E as (e & _ & ->); apply prefix_append.
Qed.

(** X20. Every error of [generatePlantUMLCode] carries the context
    [Failed to generate PlantUML code: ], and the guard of
    [parseProtoString] against empty content never fires behind
    [validateProtoContent]: after the context the message is one of the
    three fixed messages of the validation, or the message for content
    that is not a string, or the message for a missing root, or starts
    with the context of the parse step, of the collection of types, or of
    the generation. *)
Theorem generatePlantUMLCode_errors (protoContent : value) :
  match generatePlantUMLCode parse protoContent with
  | inr _ => True
  | inl message =>
      exists inner,
        message = "Failed to generate PlantUML code: " +:+ inner
        /\ inner <> "Proto content must be a non-empty string"
        /\ (inner = "Proto content cannot be null or undefined"
            \/ inner = "Proto content must be a string, received "
                       +:+ typeof protoContent
            \/ inner = "Proto content cannot be empty or contain only whitespace"
            \/ inner = "Proto content does not appear to contain valid protobuf syntax"
            \/ inner = "Parsed protobuf has no root namespace"
            \/ String.prefix "Failed to parse protobuf content: " inner = true
            \/ String.prefix "Failed to collect protobuf types: " inner = true
            \/ String.prefix "Failed to process protobuf namespace: " inner = true)
  end.
Proof.
  unfold generatePlantUMLCode.
  destruct (plantUMLCodeOf parse protoContent) as [inner|code] eqn:E; cbn; [|exact I].
  exists inner. split; [reflexivity|].
  assert (C : inner = "Proto content cannot be null or undefined"
              \/ inner = "Proto content must be a string, received "
                         +:+ typeof protoContent
              \/ inner = "Proto content cannot be empty or contain only whitespace"
              \/ inner = "Proto content does not appear to contain valid protobuf syntax"
              \/ inner = "Parsed protobuf has no root namespace"
              \/ String.prefix "Failed to parse protobuf content: " inner = true
              \/ String.prefix "Failed to collect protobuf types: " inner = true
              \/ String.prefix "Failed to process protobuf namespace: " inner = true).
  { unfold plantUMLCodeOf in E.
    destruct (validateProtoContent protoContent) as [m|verdict] eqn:EV.
    - injection E as <-. apply validateProtoContent_refuses in EV.
      destruct protoContent as [| | | | |content| | |]; try tauto.
      destruct (truthy (Str.trim content)); tauto.
    - apply validateProtoContent_accepts in EV
        as (_ & content & keyword & -> & T2 & _ & _).
      unfold parseProtoString in E.
      assert (T1 : truthy content = true).
      { destruct content; [discriminate T2 | reflexivity]. }
      rewrite T1, T2 in E. cbn [negb orb] in E.
      destruct (parse content) as [m|[root package]].
      + injection E as <-. do 5 right. left. apply prefix_append.
      + destruct (ProtoParser.collectTypes root EmptyString ProtoParser.new)
          as [m|parser] eqn:EC.
        * destruct root; injection E as <-;
            solve [ do 4 right; left; reflexivity
                  | do 6 right; left; apply prefix_append ].
        * destruct root;
            try (injection E as <-; do 4 right; left; reflexivity);
            (apply generateFromRoot_message in E as [E|E];
             [discriminate | do 7 right; exact E]). }
  split; [|exact C].
  intros ->. destruct C as [C|[C|[C|[C|[C|[C|[C|C]]]]]]]; discriminate.
Qed.

Lemma imageUrl_prefix text baseUrl v console url v' :
  PlantumlEncoderJs.generatePlantUMLImageUrl env text baseUrl v
  = (console, inr (url, v')) ->
  exists payload, url = (baseUrl ++ payload)%list.
Proof.
  unfold PlantumlEncoderJs.generatePlantUMLImageUrl.
  destruct (PlantumlEncoderJs.compressAndEncode env text v)
    as [c [e|[res w]]]; [discriminate|].
  destruct (String.eqb _ _); intros H; injection H as _ <- _; eauto.
Qed.

(** X21. A call of [generateDiagramUrl] with options that are not an
    object throws [Options must be an object or null] as it is, whatever
    the content.  Every other call either throws an error whose message
    starts with [Failed to generate diagram: ], or returns an object
    marked as a success whose code is what [generatePlantUMLCode] returns
    for the content and whose URL starts with the endpoint of the call,
    or with the endpoint of the instance when the call names none or a
    falsy one; that endpoint is a string and is not empty. *)
Theorem generateDiagramUrl_outcome
    (instanceEndpoint protoContent : value) (options : Proto2Diagram.options)
    (v : PlantumlEncoderJs.vars) :
  match options with
  | NotAnObject =>
      generateDiagramUrl parse env instanceEndpoint protoContent options v
      = ([], inl "Options must be an object or null")
  | _ =>
      match snd (generateDiagramUrl parse env instanceEndpoint protoContent
                                    options v) with
      | inl message =>
          String.prefix "Failed to generate diagram: " message = true
      | inr d =>
          success d = true
          /\ generatePlantUMLCode parse protoContent = inr (plantumlCode d)
          /\ exists endpoint payload,
               or_value (plantumlEndpointOf options) instanceEndpoint
               = VString endpoint
               /\ truthy endpoint = true
               /\ imageUrl d = (lit endpoint ++ payload)%list
      end
  end.
Proof.
  assert (G : forall o, o <> NotAnObject ->
            match snd (match generatePlantUMLCode parse protoContent with
                       | inl message =>
                           ([], inl ("Failed to generate diagram: " +:+ message))
                       | inr plantumlCode =>
                           if negb (truthy plantumlCode)
                           then ([], inl ("Failed to generate diagram: "
                                          +:+ "Failed to generate valid PlantUML code"))
                           else
                             match endpointText
                                     (or_value (plantumlEndpointOf o)
                                               instanceEndpoint) with
                             | None =>
                                 ([], inl ("Failed to generate diagram: "
                                           +:+ "PlantUML endpoint must be a valid URL string"))
                             | Some endpoint =>
                                 match PlantumlEncoderJs.generatePlantUMLImageUrl
                                         env plantumlCode (lit endpoint) v with
                                 | (console, inl message) =>
                                     (console,
                                      inl ("Failed to generate diagram: " +:+ message))
                                 | (console, inr ([], _)) =>
                                     (console,
                                      inl ("Failed to generate diagram: "
                                           +:+ "Failed to generate valid image URL"))
                                 | (console, inr (url, _)) =>
                                     (console, inr (Diagram url plantumlCode true))
                                 end
                             end
                       end) with
            | inl message =>
                String.prefix "Failed to generate diagram: " message = true
            | inr d =>
                success d = true
                /\ generatePlantUMLCode parse protoContent = inr (plantumlCode d)
                /\ exists endpoint payload,
                     or_value (plantumlEndpointOf o) instanceEndpoint
                     = VString endpoint
                     /\ truthy endpoint = true
                     /\ imageUrl d = (lit endpoint ++ payload)%list
            end).
  { intros o _.
    destruct (generatePlantUMLCode parse protoContent) as [m|code];
      [apply prefix_append|].
    destruct (truthy code); cbn [negb]; [|apply prefix_append].
    destruct (or_value (plantumlEndpointOf o) instanceEndpoint)
      as [| | | | |url| | |]; try apply prefix_append.
    cbn [endpointText]. destruct (truthy url) eqn:T; [|apply prefix_append].
    destruct (PlantumlEncoderJs.generatePlantUMLImageUrl _ _ _ _)
      as [console [m|[image v']]] eqn:E; [apply prefix_append|].
    destruct (imageUrl_prefix _ _ _ _ _ _ E) as [payload ->].
    destruct (lit url ++ payload)%list eqn:U; [apply prefix_append|].
    cbn. repeat split. exists url, payload. repeat split; [exact T | now rewrite U]. }
  destruct options; [apply (G NoOptions) | apply (G NullOptions)
                     | apply (G (Options _)) | reflexivity]; discriminate.
Qed.

Lemma join_app_last sep : forall l x,
  l <> [] -> Str.join sep (l ++ [x]) = Str.join sep l +:+ sep +:+ x.
Proof.
  induction l as [|y l IH]; intros x H; [congruence|].
  destruct l as [|z l]; [reflexivity|].
  change (Str.join sep ((y :: z :: l) ++ [x]))
    with (y +:+ sep +:+ Str.join sep ((z :: l) ++ [x])).
  rewrite IH by discriminate.
  change (Str.join sep (y :: z :: l)) with (y +:+ sep +:+ Str.join sep (z :: l)).
  now rewrite !append_assoc.
Qed.

Lemma generateFromRoot_framed
    (parser : ProtoParser.t) (root : node) (packageName : option string)
    (code : string) :
  PlantUMLGenerator.generateFromRoot parser root packageName = inr code ->
  (exists rest, code = ("@startuml" +:+ Str.newline) +:+ rest)
  /\ exists before, code = before +:+ Str.newline +:+ "@enduml".
Proof.
  unfold PlantUMLGenerator.generateFromRoot. intros H.
  destruct (PlantUMLGenerator.generate parser root packageName) as [m|g] eqn:G;
    [discriminate|].
  injection H as <-. unfold PlantUMLGenerator.generate in G.
  assert (G' : exists g1,
             PlantUMLGenerator.processRoot parser root packageName
                                           PlantUMLGenerator.reset = inr g1
             /\ g = PlantUMLGenerator.push "@enduml"
                      (fold_left (fun g relation => PlantUMLGenerator.push relation g)
                                 (PlantUMLGenerator.relations g1) g1)).
  { destruct root; try discriminate;
      apply andThen_inr in G as (g1 & G1 & E); apply wrap_inr in G1;
      injection E as <-; eauto. }
  destruct G' as (g1 & G1 & ->).
  destruct (steps_extends _ _ (steps_processRoot parser _ _ _ _ G1))
    as [_ [body L]].
  rewrite pushAll_eq. cbn [PlantUMLGenerator.lines PlantUMLGenerator.push].
  rewrite L. cbn [PlantUMLGenerator.lines PlantUMLGenerator.reset].
  split.
  - unfold PlantUMLGenerator.header. cbn [app].
    rewrite join_cons by discriminate.
    eexists. now rewrite append_assoc.
  - rewrite join_app_last by (unfold PlantUMLGenerator.header; discriminate).
    eexists. reflexivity.
Qed.

(** X22. The text [generateFromRoot] returns starts with the start marker
    on a line of its own and ends with the end marker on a line of its
    own. *)
Theorem diagram_text_framed
    (parser : ProtoParser.t) (root : node) (packageName : option string)
    (code : string) :
  PlantUMLGenerator.generateFromRoot parser root packageName = inr code ->
  String.prefix ("@startuml" +:+ Str.newline) code = true
  /\ exists before, code = before +:+ Str.newline +:+ "@enduml".
Proof.
  intros H. destruct (generateFromRoot_framed _ _ _ _ H) as [[rest E] F].
  split; [|exact F]. rewrite E. apply prefix_append.
Qed.

Lemma diagram_text_framed_witness :
  String.prefix ("@startuml" +:+ Str.newline)
    (Str.join Str.newline
       (PlantUMLGenerator.lines (Diagrams.diagram Examples.userAddress None)))
  = true.
Proof.
  apply (diagram_text_framed (Examples.parserOf Examples.userAddress)
           Examples.userAddress None).
  vm_compute. reflexivity.
Defined.

Lemma generatePlantUMLCode_truthy protoContent code :
  generatePlantUMLCode parse protoContent = inr code -> truthy code = true.
Proof.
  unfold generatePlantUMLCode. intros H. apply wrap_inr_parser in H.
  unfold plantUMLCodeOf in H.
  destruct (validateProtoContent protoContent); [discriminate|].
  destruct (parseProtoString parse protoContent)
    as [m|[[root parser] packageName]]; [discriminate|].
  destruct (generateFromRoot_framed _ _ _ _ H) as [[rest ->] _]. reflexivity.
Qed.

(** X23. The default endpoint only stands in for an endpoint that is
    missing from the options of the constructor.  An instance constructed
    with an empty endpoint has no endpoint: a call whose options are
    missing, null, or an object without a truthy endpoint never returns a
    URL; when the content gives a diagram the call throws for the
    endpoint. *)
Theorem empty_endpoint_is_not_defaulted
    (protoContent : value) (options : Proto2Diagram.options)
    (v : PlantumlEncoderJs.vars) :
  options <> NotAnObject ->
  toBoolean (plantumlEndpointOf options) = false ->
  constructedEndpoint None = VString CONFIG.PLANTUML_ENDPOINT
  /\ generateDiagramUrl parse env (constructedEndpoint (Some (VString EmptyString)))
                        protoContent options v
     = ([], inl ("Failed to generate diagram: "
                 +:+ match generatePlantUMLCode parse protoContent with
                     | inr _ => "PlantUML endpoint must be a valid URL string"
                     | inl message => message
                     end)).
Proof.
  intros Ho He. split; [reflexivity|].
  assert (E : endpointText
                (or_value (plantumlEndpointOf options)
                          (constructedEndpoint (Some (VString EmptyString))))
              = None).
  { unfold or_value. now rewrite He. }
  unfold generateDiagramUrl. rewrite E.
  destruct (generatePlantUMLCode parse protoContent) as [m|code] eqn:G.
  - now destruct options.
  - rewrite (generatePlantUMLCode_truthy _ _ G). now destruct options.
Qed.

End FacadeFacts.

Section FacadeWitnesses.
Import JS Protobuf Proto2Diagram.
Local Open Scope string_scope.

Lemma empty_endpoint_is_not_defaulted_witness :
  generateDiagramUrl (fun _ => inr (Examples.userAddress, None))
    (PlantumlEncoderJs.Env None None None)
    (constructedEndpoint (Some (VString EmptyString)))
    (VString "message User {}") (Options (VString EmptyString))
    PlantumlEncoder.init
  = ([], inl "Failed to generate diagram: PlantUML endpoint must be a valid URL string").
Proof.
  rewrite (proj2 (empty_endpoint_is_not_defaulted
                    (fun _ => inr (Examples.userAddress, None))
                    (PlantumlEncoderJs.Env None None None)
                    (VString "message User {}") (Options (VString EmptyString))
                    PlantumlEncoder.init ltac:(discriminate) eq_refl)).
  vm_compute. reflexivity.
Defined.

End FacadeWitnesses.

Section DisplayFacts.
Import JS Protobuf PlantUMLGenerator ProtoParser ResolverSpec EmitSpec.
Local Open Scope string_scope.

(** X24. The type shown on the line of a field agrees with the
    cardinality on its edge: a required field shows its bare type, an
    optional one its type followed by [ ?], and a multiple one a
    [map<key, type>] or its type followed by [ [ ]], with [ ?] added when
    the field is also optional or in a oneof. *)
Theorem display_matches_cardinality (field : Field.t) (fieldType : string) :
  (getCardinality (Some field) = CONFIG.UML.CARDINALITY.REQUIRED ->
   displayTypeOf field fieldType = fieldType)
  /\ (getCardinality (Some field) = CONFIG.UML.CARDINALITY.OPTIONAL ->
      displayTypeOf field fieldType = fieldType +:+ " ?")
  /\ (getCardinality (Some field) = CONFIG.UML.CARDINALITY.MULTIPLE ->
      exists shown,
        (shown = "map<" +:+ or_else (Field.keyType field) "string" +:+ ", "
                 +:+ fieldType +:+ ">"
         \/ shown = fieldType +:+ " [ ]")
        /\ displayTypeOf field fieldType
           = if isOptionalField field then shown +:+ " ?" else shown).
Proof.
  unfold getCardinality, displayTypeOf.
  destruct (Field.map field), (Field.repeated field), (isOptionalField field);
    cbn [orb andb negb]; repeat split; intros H; try discriminate H;
    try reflexivity; eexists; (split; [|reflexivity]); auto.
Qed.

Lemma display_matches_cardinality_witness :
  displayTypeOf Examples.payByCard "string" = "string ?".
Proof.
  apply (proj1 (proj2 (display_matches_cardinality Examples.payByCard "string"))).
  reflexivity.
Defined.

End DisplayFacts.
